(** * The settings panel of FixMediaBot ([views/settings.py])

    A shallow embedding of the setting classes, of the [SettingsView]
    controller and of its delayed clean-up task, together with the
    properties the design document states about them.

    Python objects live in a heap addressed by locations, so that two
    references to one setting object are one object here too; a [dict] is
    an association list in insertion order; code that may raise runs in a
    small state-and-exception monad in which an exception keeps the
    mutations made before it, as in Python. *)

From stdpp Require Import gmap strings list pretty.

Open Scope string_scope.
Open Scope list_scope.

(** ** Exceptions *)

(** The exception classes the module names or can meet.  [NotFound] and
    [Forbidden] are the framework's subclasses of [HTTPException] (a
    response that is already gone is reported as [NotFound]); a request
    that fails below HTTP, such as a connection that is reset, surfaces
    as an [OSError]. *)
Inductive exn_class :=
| BaseException
| Exception
| HTTPException
| NotFound
| Forbidden
| CancelledError
| NotImplementedError
| TypeError
| KeyError
| IndexError
| AttributeError
| SystemError
| OSError.

Global Instance exn_class_eq_dec : EqDecision exn_class.
Proof. solve_decision. Defined.

(** Direct base class. [asyncio.CancelledError] derives from
    [BaseException] since Python 3.8. *)
Definition exn_base (c : exn_class) : option exn_class :=
  match c with
  | BaseException => None
  | Exception => Some BaseException
  | HTTPException => Some Exception
  | NotFound => Some HTTPException
  | Forbidden => Some HTTPException
  | CancelledError => Some BaseException
  | NotImplementedError => Some Exception
  | TypeError => Some Exception
  | KeyError => Some Exception
  | IndexError => Some Exception
  | AttributeError => Some Exception
  | SystemError => Some Exception
  | OSError => Some Exception
  end.

(** [issubclass c d], by walking up the bases (the hierarchy has depth 4). *)
Fixpoint issubclass_fuel (n : nat) (c d : exn_class) : bool :=
  if bool_decide (c = d) then true
  else match n with
       | O => false
       | S n' => match exn_base c with
                 | Some b => issubclass_fuel n' b d
                 | None => false
                 end
       end.

Definition issubclass (c d : exn_class) : bool := issubclass_fuel 4 c d.

Record exn := Exn { exn_cls : exn_class; exn_msg : string }.

(** [except (c1, c2, ...)]: does the clause catch [e]? *)
Definition caught_by (handled : list exn_class) (e : exn) : bool :=
  existsb (issubclass (exn_cls e)) handled.

Inductive outcome (A : Type) :=
| Return (a : A)
| Raise (e : exn).
Arguments Return {A} a.
Arguments Raise {A} e.

(** ** The state-and-exception monad *)

Definition M (S A : Type) : Type := S -> outcome A * S.

Definition ret {S A} (a : A) : M S A := fun s => (Return a, s).

Definition bind {S A B} (m : M S A) (k : A -> M S B) : M S B :=
  fun s => match m s with
           | (Return a, s') => k a s'
           | (Raise e, s') => (Raise e, s')
           end.

Definition raise {S A} (e : exn) : M S A := fun s => (Raise e, s).

Definition get {S} : M S S := fun s => (Return s, s).
Definition modify {S} (f : S -> S) : M S unit := fun s => (Return tt, f s).

(** [try: body except handled: handler] *)
Definition try_except {S A} (body : M S A) (handled : list exn_class)
    (handler : M S A) : M S A :=
  fun s => match body s with
           | (Return a, s') => (Return a, s')
           | (Raise e, s') =>
               if caught_by handled e then handler s' else (Raise e, s')
           end.

Declare Scope py_scope.
Delimit Scope py_scope with py.
Notation "x <- c1 ;; c2" := (bind c1 (fun x => c2))
  (at level 100, c1 at next level, right associativity) : py_scope.
Notation "c1 ;;; c2" := (bind c1 (fun _ => c2))
  (at level 100, right associativity) : py_scope.
Open Scope py_scope.

(** A list comprehension / [for] loop whose body may raise. *)
Fixpoint mapM {S A B} (f : A -> M S B) (l : list A) : M S (list B) :=
  match l with
  | [] => ret []
  | a :: l' => b <- f a ;; bs <- mapM f l' ;; ret (b :: bs)
  end.

(** ** The setting classes *)

Inductive cls := BaseSetting | ClickerSetting | ToggleSetting | FixTweetSetting.

Global Instance cls_eq_dec : EqDecision cls.
Proof. solve_decision. Defined.

(** [cls.__subclasses__()]: the direct subclasses, in definition order. *)
Definition __subclasses__ (c : cls) : list cls :=
  match c with
  | BaseSetting => [ClickerSetting; ToggleSetting; FixTweetSetting]
  | _ => []
  end.

Definition __name__ (c : cls) : string :=
  match c with
  | BaseSetting => "BaseSetting"
  | ClickerSetting => "ClickerSetting"
  | ToggleSetting => "ToggleSetting"
  | FixTweetSetting => "FixTweetSetting"
  end.

(** The class attribute [id].  [BaseSetting] only annotates it
    ([id: str]), so the attribute does not exist there. *)
Definition attr_id (c : cls) : option string :=
  match c with
  | BaseSetting => None
  | ClickerSetting => Some "clicker"
  | ToggleSetting => Some "toggle"
  | FixTweetSetting => Some "fixtweet"
  end.

Definition getattr_id {S} (c : cls) : M S string :=
  match attr_id c with
  | Some i => ret i
  | None => raise (Exn AttributeError
              ("type object '" +:+ __name__ c +:+ "' has no attribute 'id'"))
  end.

(** [BaseSetting.cls_from_id]: the loop over [cls.__subclasses__()]. *)
Fixpoint cls_from_id_loop {S} (subclasses : list cls) (id : string)
    : M S (option cls) :=
  match subclasses with
  | [] => ret None
  | setting :: rest =>
      sid <- getattr_id setting ;;
      if String.eqb sid id then ret (Some setting)
      else cls_from_id_loop rest id
  end.

Definition cls_from_id {S} (c : cls) (id : string) : M S (option cls) :=
  cls_from_id_loop (__subclasses__ c) id.

(** ** Framework data *)

Definition loc := nat.

Record Permissions := {
  read_messages : bool;
  send_messages : bool;
  embed_links : bool;
  manage_messages : bool
}.

(** A text channel: its ids, its mention string and the permissions of
    the bot's own member in it ([channel.permissions_for(guild.me)]). *)
Record TextChannel := {
  channel_id : Z;
  guild_id : Z;
  mention : string;
  permissions_for_me : Permissions
}.

Record Embed := {
  title : string;
  description : string;
  footer : option string
}.

Inductive ButtonStyle := primary | secondary | green | red.

(** What an item's callback is bound to by [edit_callback]: the bound
    method [action] of the setting object at a location, or the view's
    [select_parameter]. *)
Inductive callback :=
| cb_action (l : loc)
| cb_select_parameter.

Record Button := {
  style : ButtonStyle;
  label : string;
  custom_id : string
}.

Record SelectOption := {
  opt_label : string;
  value : string;
  opt_description : string;
  opt_emoji : option string;
  opt_default : bool
}.

Inductive Item :=
| ItemButton (b : Button) (cb : option callback)
| ItemSelect (options : list SelectOption) (cb : option callback).

(** [utils.edit_callback(item, view, f)]: binds the item's callback. *)
Definition edit_callback (item : Item) (f : callback) : Item :=
  match item with
  | ItemButton b _ => ItemButton b (Some f)
  | ItemSelect o _ => ItemSelect o (Some f)
  end.

(** What the module imports from [utils] and from the framework's
    configuration, none of which is part of this file: the translation
    function [t] (key and keyword arguments), [set_embed_footer], the
    configured emoji, and the durable store behind [is_fixtweet_enabled]
    and [TextChannel.find(id).update({'fix_twitter': ...})]. *)
Class Env := {
  Bot : Type;
  Store : Type;
  t : string -> list (string * string) -> string;
  set_embed_footer : Bot -> Embed -> Embed;
  fixtweet_emoji : option string;
  is_fixtweet_enabled : Z -> Z -> Store -> bool;
  TextChannel_update_fix_twitter : Z -> bool -> Store -> Store
}.

(** An incoming interaction: the bot it came to, the message its
    component sits on (none for the slash command), the channel, and what
    the framework answers when the response call ([edit_message] /
    [send_message]) is made on it. *)
Record Interaction `{Env} := {
  client : Bot;
  message : option Z;
  interaction_channel : TextChannel;
  response_error : option exn
}.

(** ** Setting objects *)

Inductive instance :=
| IBase
| IClicker (counter : Z)
| IToggle (state : bool)
| IFixTweet (state : bool) (channel : TextChannel).

Global Instance Permissions_eq_dec : EqDecision Permissions.
Proof. solve_decision. Defined.
Global Instance TextChannel_eq_dec : EqDecision TextChannel.
Proof. solve_decision. Defined.
Global Instance instance_eq_dec : EqDecision instance.
Proof. solve_decision. Defined.

Definition type_of (o : instance) : cls :=
  match o with
  | IBase => BaseSetting
  | IClicker _ => ClickerSetting
  | IToggle _ => ToggleSetting
  | IFixTweet _ _ => FixTweetSetting
  end.

Definition attr_name (c : cls) : option string :=
  match c with
  | BaseSetting => None
  | ClickerSetting => Some "Clicker"
  | ToggleSetting => Some "Toggle"
  | FixTweetSetting => Some "settings.fixtweet.name"
  end.

Definition attr_description (c : cls) : option string :=
  match c with
  | BaseSetting => None
  | ClickerSetting => Some "A simple clicker game"
  | ToggleSetting => Some "Toggle the setting"
  | FixTweetSetting => Some "settings.fixtweet.description"
  end.

Definition attr_emoji `{Env} (c : cls) : option (option string) :=
  match c with
  | BaseSetting => None
  | ClickerSetting => Some (Some "👆")
  | ToggleSetting => Some (Some "🔄")
  | FixTweetSetting => Some fixtweet_emoji
  end.

(** Attribute access on an instance falls back to its class. *)
Definition getattr {S A} (what : string) (a : cls -> option A) (self : instance)
    : M S A :=
  match a (type_of self) with
  | Some x => ret x
  | None => raise (Exn AttributeError
              ("'" +:+ __name__ (type_of self) +:+ "' object has no attribute '"
               +:+ what +:+ "'"))
  end.

(** Truth value of an [Optional[str]]. *)
Definition truthy (o : option string) : bool :=
  match o with
  | None => false
  | Some s => negb (String.eqb s "")
  end.

(** [str(x)] for an [Optional[str]] inside an f-string. *)
Definition fmt_opt (o : option string) : string :=
  match o with Some s => s | None => "None" end.

(** [str(b).lower()] *)
Definition str_lower_bool (b : bool) : string := if b then "true" else "false".

Definition newline : string := String (Ascii.ascii_of_nat 10) "".

Section Settings.
Context `{Env}.
Context {S : Type}.

(** [BaseSetting.build_embed] *)
Definition BaseSetting_build_embed (self : instance) (bot : Bot) : M S Embed :=
  emoji <- getattr "emoji" attr_emoji self ;;
  name <- getattr "name" attr_name self ;;
  descr <- getattr "description" attr_description self ;;
  let embed := {| title := if truthy emoji
                           then fmt_opt emoji +:+ " " +:+ t name []
                           else t name [];
                  description := t descr [];
                  footer := None |} in
  ret (set_embed_footer bot embed).

(** [BaseSetting.build_option] *)
Definition build_option (self : instance) (selected : bool) : M S SelectOption :=
  name <- getattr "name" attr_name self ;;
  id <- getattr "id" attr_id self ;;
  descr <- getattr "description" attr_description self ;;
  emoji <- getattr "emoji" attr_emoji self ;;
  ret {| opt_label := t name [];
         value := id;
         opt_description := t descr [];
         opt_emoji := emoji;
         opt_default := selected |}.

(** [BaseSetting.build_action]; [l] is where [self] lives, for the
    bound method [self.action]. *)
Definition BaseSetting_build_action (l : loc) (self : instance) : M S (list Item) :=
  name <- getattr "name" attr_name self ;;
  id <- getattr "id" attr_id self ;;
  let item := ItemButton {| style := primary; label := t name [];
                            custom_id := id |} None in
  ret [edit_callback item (cb_action l)].

(** [ClickerSetting.build_embed] *)
Definition ClickerSetting_build_embed (counter : Z) (bot : Bot) : M S Embed :=
  let self := IClicker counter in
  emoji <- getattr "emoji" attr_emoji self ;;
  name <- getattr "name" attr_name self ;;
  descr <- getattr "description" attr_description self ;;
  let embed := {| title := fmt_opt emoji +:+ " " +:+ name;
                  description :=
                    descr +:+ (if bool_decide (counter > 0)%Z
                               then newline +:+ "**You clicked "
                                    +:+ pretty counter +:+ " times**"
                               else "");
                  footer := None |} in
  ret (set_embed_footer bot embed).

(** [ClickerSetting.build_action] *)
Definition ClickerSetting_build_action (l : loc) (counter : Z) : M S (list Item) :=
  let self := IClicker counter in
  name <- getattr "name" attr_name self ;;
  id <- getattr "id" attr_id self ;;
  let item := ItemButton {| style := primary;
                            label := name +:+ " (" +:+ pretty counter +:+ ")";
                            custom_id := id |} None in
  ret [edit_callback item (cb_action l)].

(** [ToggleSetting.build_action] *)
Definition ToggleSetting_build_action (l : loc) (state : bool) : M S (list Item) :=
  let self := IToggle state in
  name <- getattr "name" attr_name self ;;
  id <- getattr "id" attr_id self ;;
  let item := ItemButton {| style := if state then green else red;
                            label := name +:+ " " +:+ (if state then "ON" else "OFF");
                            custom_id := id |} None in
  ret [edit_callback item (cb_action l)].

(** [FixTweetSetting.build_embed] *)
Definition FixTweetSetting_build_embed (state : bool) (channel : TextChannel)
    (bot : Bot) : M S Embed :=
  let self := IFixTweet state channel in
  let channel_permissions := permissions_for_me channel in
  let perms := [("read", read_messages channel_permissions);
                ("send", send_messages channel_permissions);
                ("embed", embed_links channel_permissions);
                ("manage", manage_messages channel_permissions)] in
  let str_perms :=
    String.concat newline
      (map (fun '(perm, v) =>
              t ("settings.fixtweet.perm." +:+ perm +:+ "." +:+ str_lower_bool v) [])
           perms) in
  emoji <- getattr "emoji" attr_emoji self ;;
  name <- getattr "name" attr_name self ;;
  let embed :=
    {| title := fmt_opt emoji +:+ " " +:+ t name [];
       description :=
         t "settings.fixtweet.content"
           [("channel", mention channel);
            ("state", t ("settings.fixtweet.state." +:+ str_lower_bool state) [])]
         +:+ str_perms;
       footer := None |} in
  ret (set_embed_footer bot embed).

(** [FixTweetSetting.build_action] *)
Definition FixTweetSetting_build_action (l : loc) (state : bool)
    (channel : TextChannel) : M S (list Item) :=
  let self := IFixTweet state channel in
  id <- getattr "id" attr_id self ;;
  let item := ItemButton {| style := if state then primary else secondary;
                            label := t ("settings.fixtweet.button."
                                        +:+ str_lower_bool state) [];
                            custom_id := id |} None in
  ret [edit_callback item (cb_action l)].

(** Method resolution: the class of [self] picks the override. *)
Definition build_embed (self : instance) (bot : Bot) : M S Embed :=
  match self with
  | IClicker counter => ClickerSetting_build_embed counter bot
  | IFixTweet state channel => FixTweetSetting_build_embed state channel bot
  | IBase | IToggle _ => BaseSetting_build_embed self bot
  end.

Definition build_action (l : loc) (self : instance) : M S (list Item) :=
  match self with
  | IBase => BaseSetting_build_action l self
  | IClicker counter => ClickerSetting_build_action l counter
  | IToggle state => ToggleSetting_build_action l state
  | IFixTweet state channel => FixTweetSetting_build_action l state channel
  end.

End Settings.

(** ** Dictionaries in insertion order *)

Section Dict.
Context {V : Type}.

Fixpoint dict_get (k : string) (d : list (string * V)) : option V :=
  match d with
  | [] => None
  | (k', v) :: d' => if String.eqb k' k then Some v else dict_get k d'
  end.

(** [d[k] = v]: an existing key keeps its place, a new one goes last. *)
Fixpoint dict_set (k : string) (v : V) (d : list (string * V))
    : list (string * V) :=
  match d with
  | [] => [(k, v)]
  | (k', v') :: d' =>
      if String.eqb k' k then (k', v) :: d' else (k', v') :: dict_set k v d'
  end.

Definition keys (d : list (string * V)) : list string := map fst d.

(** [d[k]] *)
Definition dict_getitem {S} (k : string) (d : list (string * V)) : M S V :=
  match dict_get k d with
  | Some v => ret v
  | None => raise (Exn KeyError k)
  end.
End Dict.

(** ** The view, its tasks and the world around them *)

(** A clean-up task is [Scheduled] while its countdown is pending,
    [Cancelling] once [cancel()] was called on it and the
    [CancelledError] has not been delivered yet, and [Finished] after.
    Inputs are handled one at a time, and the event loop runs the first
    step of a new task before it delivers the next input: a task that is
    cancelled here is suspended in its sleep. *)
Inductive TaskState := Scheduled | Cancelling | Finished.

Global Instance TaskState_eq_dec : EqDecision TaskState.
Proof. solve_decision. Defined.

(** An element of the iterable given to [dict_from_settings]. *)
Inductive setting_arg :=
| ArgInstance (l : loc)
| ArgClass (c : cls).

Section View.
Context `{Env}.

Record Task := {
  task_interaction : Interaction;
  task_state : TaskState
}.

(** Calls that leave the module, in the order they are made, and the
    entries into [refresh]. *)
Inductive Event :=
| CallRefresh (i : Interaction)
| EditMessage (i : Interaction) (items : list Item) (e : option Embed)
| SendMessage (i : Interaction) (items : list Item) (e : option Embed)
    (ephemeral : bool)
| TaskCancel (h : nat)
| CreateTask (h : nat)
| DeleteOriginalResponse (i : Interaction).

Record SettingsView := {
  children : list Item;
  selected : option cls;
  bot : Bot;
  channel : TextChannel;
  embed : option Embed;
  settings : list (string * loc);
  selected_id : option string;
  timeout_task : option nat
}.

Record World := {
  heap : list instance;
  view : SettingsView;
  tasks : list Task;
  store : Store;
  log : list Event
}.

Definition set_heap (f : list instance -> list instance) (w : World) : World :=
  {| heap := f (heap w); view := view w; tasks := tasks w;
     store := store w; log := log w |}.
Definition set_view (f : SettingsView -> SettingsView) (w : World) : World :=
  {| heap := heap w; view := f (view w); tasks := tasks w;
     store := store w; log := log w |}.
Definition set_tasks (f : list Task -> list Task) (w : World) : World :=
  {| heap := heap w; view := view w; tasks := f (tasks w);
     store := store w; log := log w |}.
Definition set_store (f : Store -> Store) (w : World) : World :=
  {| heap := heap w; view := view w; tasks := tasks w;
     store := f (store w); log := log w |}.
Definition emit (e : Event) : M World unit :=
  modify (fun w => {| heap := heap w; view := view w; tasks := tasks w;
                      store := store w; log := log w ++ [e] |}).

Definition with_children (c : list Item) (v : SettingsView) : SettingsView :=
  {| children := c; selected := selected v; bot := bot v; channel := channel v;
     embed := embed v; settings := settings v; selected_id := selected_id v;
     timeout_task := timeout_task v |}.
Definition with_embed (e : option Embed) (v : SettingsView) : SettingsView :=
  {| children := children v; selected := selected v; bot := bot v;
     channel := channel v; embed := e; settings := settings v;
     selected_id := selected_id v; timeout_task := timeout_task v |}.
Definition with_settings (d : list (string * loc)) (v : SettingsView)
    : SettingsView :=
  {| children := children v; selected := selected v; bot := bot v;
     channel := channel v; embed := embed v; settings := d;
     selected_id := selected_id v; timeout_task := timeout_task v |}.
Definition with_selected_id (s : option string) (v : SettingsView)
    : SettingsView :=
  {| children := children v; selected := selected v; bot := bot v;
     channel := channel v; embed := embed v; settings := settings v;
     selected_id := s; timeout_task := timeout_task v |}.
Definition with_timeout_task (h : option nat) (v : SettingsView)
    : SettingsView :=
  {| children := children v; selected := selected v; bot := bot v;
     channel := channel v; embed := embed v; settings := settings v;
     selected_id := selected_id v; timeout_task := h |}.

Definition self : M World SettingsView := fun w => (Return (view w), w).

(** *** The object heap *)

(** Dereference.  A reference to nothing cannot be written in Python;
    here it stops the computation with a [SystemError]. *)
Definition deref (l : loc) : M World instance :=
  fun w => match heap w !! l with
           | Some o => (Return o, w)
           | None => (Raise (Exn SystemError "dangling reference"), w)
           end.

Definition alloc (o : instance) : M World loc :=
  fun w => (Return (length (heap w)), set_heap (fun h => h ++ [o]) w).

Definition assign (l : loc) (o : instance) : M World unit :=
  modify (set_heap (fun h => <[l := o]> h)).

(** [FixTweetSetting.__init__] *)
Definition FixTweetSetting__init__ (channel : TextChannel) : M World loc :=
  w <- get ;;
  let state := is_fixtweet_enabled (guild_id channel) (channel_id channel)
                 (store w) in
  alloc (IFixTweet state channel).

(** Calling a class with no argument: [s()]. *)
Definition instantiate (c : cls) : M World loc :=
  match c with
  | BaseSetting => alloc IBase
  | ClickerSetting => alloc (IClicker 0)
  | ToggleSetting => alloc (IToggle false)
  | FixTweetSetting =>
      raise (Exn TypeError
        "FixTweetSetting.__init__() missing 1 required positional argument: 'channel'")
  end.

(** [BaseSetting.dict_from_settings]: the comprehension
    [{s.id: (s() if isinstance(s, type) else s) for s in settings}],
    key before value, filling the dictionary from left to right. *)
Fixpoint dict_from_settings_loop (settings : list setting_arg)
    (d : list (string * loc)) : M World (list (string * loc)) :=
  match settings with
  | [] => ret d
  | s :: rest =>
      k <- match s with
           | ArgClass c => getattr_id c
           | ArgInstance l => o <- deref l ;; getattr "id" attr_id o
           end ;;
      v <- match s with
           | ArgClass c => instantiate c
           | ArgInstance l => ret l
           end ;;
      dict_from_settings_loop rest (dict_set k v d)
  end.

Definition dict_from_settings (settings : list setting_arg)
    : M World (list (string * loc)) :=
  dict_from_settings_loop settings [].

(** [SettingsView.__init__]; the world holds the view under
    construction, blank after [super().__init__()]. *)
Definition SettingsView__init__ (i : Interaction) (channel : TextChannel)
    : M World unit :=
  modify (set_view (fun _ =>
    {| children := []; selected := None; bot := client i; channel := channel;
       embed := None; settings := []; selected_id := None;
       timeout_task := None |})) ;;;
  fix_tweet <- FixTweetSetting__init__ (interaction_channel i) ;;
  d <- dict_from_settings [ArgInstance fix_tweet] ;;
  modify (set_view (with_settings d)) ;;;
  modify (set_view (with_selected_id None)) ;;;
  modify (set_view (with_timeout_task None)).

Definition clear_items : M World unit := modify (set_view (with_children [])).

Definition add_item (i : Item) : M World unit :=
  modify (set_view (fun v => with_children (children v ++ [i]) v)).

Fixpoint add_items (l : list Item) : M World unit :=
  match l with
  | [] => ret tt
  | i :: l' => add_item i ;;; add_items l'
  end.

(** [setting_id == self.selected_id], a [str] against an [Optional[str]]. *)
Definition eq_selected (setting_id : string) (sel : option string) : bool :=
  match sel with
  | Some s => String.eqb setting_id s
  | None => false
  end.

(** [SettingsView._build_items] *)
Definition _build_items : M World unit :=
  clear_items ;;;
  v <- self ;;
  match selected_id v with
  | Some sid =>
      l <- dict_getitem sid (settings v) ;;
      o <- deref l ;;
      items <- build_action l o ;;
      add_items items
  | None => ret tt
  end ;;;
  options <- mapM (fun setting_id =>
                     l <- dict_getitem setting_id (settings v) ;;
                     o <- deref l ;;
                     build_option o (eq_selected setting_id (selected_id v)))
                  (keys (settings v)) ;;
  let parameter_selection := ItemSelect options None in
  add_item (edit_callback parameter_selection cb_select_parameter).

Definition default_embed (b : Bot) : Embed :=
  set_embed_footer b {| title := t "settings.title" [];
                        description := t "settings.description" [];
                        footer := None |}.

(** [SettingsView.build] *)
Definition build : M World unit :=
  _build_items ;;;
  v <- self ;;
  e <- (if truthy (selected_id v)
        then match selected_id v with
             | Some sid =>
                 l <- dict_getitem sid (settings v) ;;
                 o <- deref l ;;
                 build_embed o (bot v)
             | None => ret (default_embed (bot v))
             end
        else ret (default_embed (bot v))) ;;
  modify (set_view (with_embed (Some e))).
End View.

Section Controller.
Context `{Env}.

(** *** The delayed clean-up task *)

(** [SettingsView._message_delete_after], over the two awaited calls
    [asyncio.sleep(delay)] and [interaction.delete_original_response()]. *)
Definition _message_delete_after {S} (asyncio_sleep : M S unit)
    (delete_original_response : M S unit) : M S unit :=
  try_except
    (asyncio_sleep ;;; delete_original_response)
    [HTTPException; CancelledError]
    (ret tt).

(** How the event loop resumes the coroutine of a task for the first
    time: it starts it, or, when [cancel()] was called on the task before
    that first step, it throws the [CancelledError] into it.  An exception
    thrown into a coroutine that has not started is raised at the top of
    the function, before its [try:] is entered. *)
Inductive first_step := started | cancelled_before_start.

(** The coroutine [_message_delete_after(interaction)] as a task runs it. *)
Definition _message_delete_after_task {S} (how : first_step)
    (asyncio_sleep : M S unit) (delete_original_response : M S unit)
    : M S unit :=
  match how with
  | started => _message_delete_after asyncio_sleep delete_original_response
  | cancelled_before_start => raise (Exn CancelledError "")
  end.

(** [asyncio.create_task(coro)]: a new task, its countdown pending. *)
Definition create_task (i : Interaction) : M World nat :=
  w <- get ;;
  let h := length (tasks w) in
  modify (set_tasks (fun ts =>
    ts ++ [{| task_interaction := i; task_state := Scheduled |}])) ;;;
  emit (CreateTask h) ;;;
  ret h.

Definition set_task_state (s : TaskState) (tk : Task) : Task :=
  {| task_interaction := task_interaction tk; task_state := s |}.

(** [task.cancel()]: a request; nothing happens to a finished task. *)
Definition request_cancel (h : nat) (ts : list Task) : list Task :=
  match ts !! h with
  | Some tk =>
      match task_state tk with
      | Scheduled => <[h := set_task_state Cancelling tk]> ts
      | Cancelling | Finished => ts
      end
  | None => ts
  end.

Definition cancel (h : nat) : M World unit :=
  emit (TaskCancel h) ;;;
  modify (set_tasks (request_cancel h)).

Definition raise_if (e : option exn) : M World unit :=
  match e with
  | Some x => raise x
  | None => ret tt
  end.

(** The event loop runs task [h], which has started, to its end: the
    sleep returns when the delay has elapsed, or raises [CancelledError]
    when the task was cancelled; [delete_result] is what the framework
    answers to the deletion (a [CancelledError] there is a cancellation
    arriving during that call).  The task is over afterwards, however its
    body ended.  A cancellation that reaches a task before its first step,
    as overlapping callbacks can produce, is [_message_delete_after_task]
    at [cancelled_before_start]: no deletion either, but the
    [CancelledError] is not caught. *)
Definition run_task (h : nat) (delete_result : option exn) : M World unit :=
  w <- get ;;
  match tasks w !! h with
  | Some tk =>
      match task_state tk with
      | Finished => ret tt
      | st =>
          fun w0 =>
            let (r, w1) :=
              _message_delete_after_task started
                (match st with
                 | Cancelling => raise (Exn CancelledError "")
                 | _ => ret tt
                 end)
                (emit (DeleteOriginalResponse (task_interaction tk)) ;;;
                 raise_if delete_result) w0 in
            (r, set_tasks (fun ts => <[h := set_task_state Finished tk]> ts) w1)
      end
  | None => ret tt
  end.

(** *** The refresh cycle *)

(** [SettingsView.refresh] (also bound as [send]) *)
Definition refresh (interaction : Interaction) : M World unit :=
  emit (CallRefresh interaction) ;;;
  build ;;;
  v <- self ;;
  match message interaction with
  | Some _ =>
      emit (EditMessage interaction (children v) (embed v)) ;;;
      raise_if (response_error interaction)
  | None =>
      emit (SendMessage interaction (children v) (embed v) true) ;;;
      raise_if (response_error interaction)
  end ;;;
  v <- self ;;
  match timeout_task v with
  | Some h => cancel h
  | None => ret tt
  end ;;;
  h' <- create_task interaction ;;
  modify (set_view (with_timeout_task (Some h'))).

Definition send := refresh.

(** [SettingsView.select_parameter]; [values] is [select.values]. *)
Definition select_parameter (interaction : Interaction) (values : list string)
    : M World unit :=
  v0 <- match values with
        | x :: _ => ret x
        | [] => raise (Exn IndexError "list index out of range")
        end ;;
  modify (set_view (with_selected_id (Some v0))) ;;;
  refresh interaction.

(** *** Activation *)

(** [BaseSetting.action] *)
Definition BaseSetting_action : M World unit :=
  raise (Exn NotImplementedError "").

(** [ClickerSetting.action] *)
Definition ClickerSetting_action (l : loc) (counter : Z)
    (interaction : Interaction) : M World unit :=
  assign l (IClicker (counter + 1)) ;;;
  refresh interaction.

(** [ToggleSetting.action] *)
Definition ToggleSetting_action (l : loc) (state : bool)
    (interaction : Interaction) : M World unit :=
  assign l (IToggle (negb state)) ;;;
  refresh interaction.

(** [FixTweetSetting.action] *)
Definition FixTweetSetting_action (l : loc) (state : bool)
    (channel : TextChannel) (interaction : Interaction) : M World unit :=
  assign l (IFixTweet (negb state) channel) ;;;
  modify (set_store
    (TextChannel_update_fix_twitter (channel_id channel) (negb state))) ;;;
  refresh interaction.

(** The bound method [setting.action] of the object at [l]. *)
Definition action (l : loc) (interaction : Interaction) : M World unit :=
  o <- deref l ;;
  match o with
  | IBase => BaseSetting_action
  | IClicker counter => ClickerSetting_action l counter interaction
  | IToggle state => ToggleSetting_action l state interaction
  | IFixTweet state channel => FixTweetSetting_action l state channel interaction
  end.

(** *** What the framework and the event loop deliver *)

Inductive Input :=
| Send (i : Interaction)
| Select (i : Interaction) (values : list string)
| Press (i : Interaction) (cb : callback)
| TaskRuns (h : nat) (delete_result : option exn).

Definition handle (inp : Input) : M World unit :=
  match inp with
  | Send i => send i
  | Select i values => select_parameter i values
  | Press i (cb_action l) => action l i
  | Press i cb_select_parameter => select_parameter i []
  | TaskRuns h r => run_task h r
  end.

(** An exception leaving a callback or a task is reported by the
    framework and the session goes on. *)
Fixpoint run (inps : list Input) (w : World) : World :=
  match inps with
  | [] => w
  | inp :: rest => run rest (snd (handle inp w))
  end.

Definition is_scheduled (tk : Task) : bool :=
  bool_decide (task_state tk = Scheduled).

(** The number of clean-up countdowns pending. *)
Definition pending (w : World) : nat :=
  length (List.filter is_scheduled (tasks w)).

End Controller.

(** ** Equality on settings *)

(** The operand of a comparison: the kinds of value the signatures of
    [__eq__] name, and any other object, known by the name of its class. *)
Inductive pyval :=
| PyNone
| PyBool (b : bool)
| PyInt (n : Z)
| PyStr (s : string)
| PySetting (o : instance)
| PyObject (class_name : string).

Definition type_name (v : pyval) : string :=
  match v with
  | PyNone => "NoneType"
  | PyBool _ => "bool"
  | PyInt _ => "int"
  | PyStr _ => "str"
  | PySetting o => __name__ (type_of o)
  | PyObject class_name => class_name
  end.

Definition method := instance -> pyval -> M unit bool.

(** [typing.overload]: the decorated function is thrown away and a stub
    that refuses to be called takes its place. *)
Definition overload (f : method) : method :=
  fun _ _ => raise (Exn NotImplementedError
                      "You should not call an overloaded function.").

(** The three [def __eq__] statements of the body of [BaseSetting], in
    order. *)
Definition BaseSetting_body : list (string * method) :=
  [ ("__eq__", overload (fun self other =>
                 sid <- getattr "id" attr_id self ;;
                 ret match other with
                     | PyStr s => String.eqb sid s
                     | _ => false
                     end));
    ("__eq__", overload (fun self other =>
                 sid <- getattr "id" attr_id self ;;
                 match other with
                 | PySetting o =>
                     oid <- getattr "id" attr_id o ;; ret (String.eqb sid oid)
                 | _ => raise (Exn AttributeError "id")
                 end));
    ("__eq__", fun self other =>
                 raise (Exn TypeError
                   ("Cannot compare " +:+ __name__ (type_of self) +:+ " with "
                    +:+ type_name other))) ].

(** Executing a class body binds each name in turn in the class
    namespace. *)
Definition namespace (body : list (string * method)) : list (string * method) :=
  fold_left (fun ns '(k, f) => dict_set k f ns) body [].

(** The [__eq__] definitions of each class; the subclasses have none. *)
Definition class_body (c : cls) : list (string * method) :=
  match c with
  | BaseSetting => BaseSetting_body
  | _ => []
  end.

(** Method resolution order, up to [object]. *)
Definition mro (c : cls) : list cls :=
  match c with
  | BaseSetting => [BaseSetting]
  | _ => [c; BaseSetting]
  end.

Fixpoint resolve (name : string) (classes : list cls) : option method :=
  match classes with
  | [] => None
  | c :: rest =>
      match dict_get name (namespace (class_body c)) with
      | Some f => Some f
      | None => resolve name rest
      end
  end.

(** [type(self).__eq__(self, other)]; a class hierarchy without any
    [__eq__] would end at [object]'s, which compares identities. *)
Definition __eq__ (self : instance) (other : pyval) : M unit bool :=
  match resolve "__eq__" (mro (type_of self)) with
  | Some f => f self other
  | None => ret match other with
                | PySetting o => bool_decide (self = o)
                | _ => false
                end
  end.

(** ** A concrete environment *)

(** Translation is the identity on keys, the footer is the bot's name,
    the store maps channel ids to the flag (absent: disabled). *)
Definition demo_env : Env :=
  {| Bot := string;
     Store := gmap Z bool;
     t := fun key _ => key;
     set_embed_footer := fun b e =>
       {| title := title e; description := description e; footer := Some b |};
     fixtweet_emoji := Some "🔧";
     is_fixtweet_enabled := fun _ c st =>
       match st !! c with Some b => b | None => false end;
     TextChannel_update_fix_twitter := fun c b st => <[c := b]> st |}.

Module Demo.
#[local] Existing Instance demo_env.

Definition perms : Permissions :=
  {| read_messages := true; send_messages := true;
     embed_links := false; manage_messages := true |}.

Definition general : TextChannel :=
  {| channel_id := 42; guild_id := 7; mention := "<#42>";
     permissions_for_me := perms |}.

(** The slash command, and a later click on the panel's message. *)
Definition command : Interaction :=
  {| client := "FixMediaBot"; message := None;
     interaction_channel := general; response_error := None |}.

Definition click : Interaction :=
  {| client := "FixMediaBot"; message := Some 1001%Z;
     interaction_channel := general; response_error := None |}.


Definition blank_view : SettingsView :=
  {| children := []; selected := None; bot := "FixMediaBot";
     channel := general; embed := None; settings := [];
     selected_id := None; timeout_task := None |}.

Definition blank : World :=
  {| heap := []; view := blank_view; tasks := []; store := ∅; log := [] |}.

(** The world right after [SettingsView(i, channel)]. *)
Definition fresh : World := snd (SettingsView__init__ command general blank).

(** A panel over the two test settings and the real one. *)
Definition three : World :=
  let w1 := snd (FixTweetSetting__init__ general blank) in
  let (r, w2) := dict_from_settings
                   [ArgClass ClickerSetting; ArgClass ToggleSetting;
                    ArgInstance 0] w1 in
  match r with
  | Return d => set_view (with_settings d) w2
  | Raise _ => w2
  end.

(** The same worlds once the panel was sent and a setting chosen. *)
Definition chosen : World :=
  run [Send command; Select click ["fixtweet"]] fresh.

Definition clicking : World :=
  run [Send command; Select click ["clicker"]] three.
End Demo.

(** ** Well-formed worlds and what is observed of a run *)

Section Observations.
Context `{Env}.

(** An entry of the settings dictionary is sound when its value is a
    live setting object whose class attribute [id] is the key. *)
Definition entry_ok (hp : list instance) (kl : string * loc) : bool :=
  match hp !! snd kl with
  | Some o => bool_decide (attr_id (type_of o) = Some (fst kl))
  | None => false
  end.

(** The dictionary of the view has distinct keys and sound entries:
    what [dict_from_settings] builds. *)
Definition wf_settings (w : World) : bool :=
  bool_decide (NoDup (keys (settings (view w))))
  && forallb (entry_ok (heap w)) (settings (view w)).

(** The selected id is one of the options the select menu offers; the
    framework delivers no other value. *)
Definition wf_selected (w : World) : bool :=
  match selected_id (view w) with
  | Some k => bool_decide (k ∈ keys (settings (view w)))
  | None => true
  end.

Definition wf (w : World) : bool := wf_settings w && wf_selected w.

Definition is_response (e : Event) : bool :=
  match e with
  | EditMessage _ _ _ | SendMessage _ _ _ _ => true
  | _ => false
  end.

Definition is_task_event (e : Event) : bool :=
  match e with
  | TaskCancel _ | CreateTask _ => true
  | _ => false
  end.

Definition is_refresh_call (e : Event) : bool :=
  match e with
  | CallRefresh _ => true
  | _ => false
  end.

(** The events logged on the way from [w] to [w']. *)
Definition since (w w' : World) : list Event :=
  drop (length (log w)) (log w').

(** Every pending countdown is the one the view holds the handle of. *)
Definition single_flight (w : World) : Prop :=
  forall h tk, tasks w !! h = Some tk -> task_state tk = Scheduled ->
               timeout_task (view w) = Some h.

(** The response call [refresh] makes for a view [v]. *)
Definition response_event (i : Interaction) (v : SettingsView) : Event :=
  match message i with
  | Some _ => EditMessage i (children v) (embed v)
  | None => SendMessage i (children v) (embed v) true
  end.

(** [items] are the action controls of the selected setting of [w] (none
    without a selection) and [options] the selector options of its
    settings, one per key and in the order of the keys, as the setting
    objects build them. *)
Definition items_for (w : World) (items : list Item)
    (options : list SelectOption) : Prop :=
  match selected_id (view w) with
  | Some k =>
      exists l o, dict_get k (settings (view w)) = Some l /\
                  heap w !! l = Some o /\
                  attr_id (type_of o) = Some k /\
                  forall (S : Type) (s : S),
                    build_action l o s = (Return items, s)
  | None => items = []
  end /\
  Forall2 (fun k op =>
             exists l o, dict_get k (settings (view w)) = Some l /\
                         heap w !! l = Some o /\
                         attr_id (type_of o) = Some k /\
                         forall (S : Type) (s : S),
                           build_option o
                             (eq_selected k (selected_id (view w))) s
                           = (Return op, s))
          (keys (settings (view w))) options.

(** [e] is the embed of the selected setting of [w], or the overview
    embed without a selection. *)
Definition embed_for (w : World) (e : Embed) : Prop :=
  match selected_id (view w) with
  | Some k =>
      exists l o, dict_get k (settings (view w)) = Some l /\
                  heap w !! l = Some o /\
                  forall (S : Type) (s : S),
                    build_embed o (bot (view w)) s = (Return e, s)
  | None => e = default_embed (bot (view w))
  end.

(** The view after a rebuild that produced [items], [options] and [e]. *)
Definition rebuilt (items : list Item) (options : list SelectOption)
    (e : Embed) (v : SettingsView) : SettingsView :=
  with_embed (Some e)
    (with_children (items ++ [ItemSelect options (Some cb_select_parameter)]) v).

(** The tasks after the cancel-and-reschedule of [refresh], and the
    calls it makes for it. *)
Definition rescheduled (i : Interaction) (old : option nat) (ts : list Task)
    : list Task :=
  match old with
  | Some h => request_cancel h ts
  | None => ts
  end ++ [{| task_interaction := i; task_state := Scheduled |}].

Definition reschedule_events (old : option nat) (n : nat) : list Event :=
  match old with
  | Some h => [TaskCancel h]
  | None => []
  end ++ [CreateTask n].

(** [w'] is [w] with other items and another embed on the view. *)
Definition rerendered (w w' : World) : Prop :=
  exists c e, w' = set_view (fun v => with_embed e (with_children c v)) w.

(** A computation that changes nothing but that. *)
Definition keeps {A} (m : M World A) : Prop :=
  forall w, rerendered w (snd (m w)).


(** The [id] of an element of the iterable, over a heap. *)
Definition arg_id (hp : list instance) (a : setting_arg) : option string :=
  match a with
  | ArgClass c => attr_id c
  | ArgInstance l => match hp !! l with
                     | Some o => attr_id (type_of o)
                     | None => None
                     end
  end.

(** The order in which keys enter a dictionary: a key met again keeps its
    first place. *)
Definition insertion_order (ks : list string) : list string :=
  fold_left (fun acc k => if bool_decide (k ∈ acc) then acc else acc ++ [k]) ks [].

Definition assign_all {V} (kvs : list (string * V)) (d : list (string * V))
    : list (string * V) :=
  fold_left (fun acc kv => dict_set (fst kv) (snd kv) acc) kvs d.

(** What one element of the iterable contributes: its id and the
    location of the setting stored under it. *)
Definition contributes (w w' : World) (a : setting_arg) (kv : string * loc) : Prop :=
  arg_id (heap w') a = Some (fst kv) /\
  entry_ok (heap w') kv = true /\
  match a with
  | ArgInstance l => snd kv = l
  | ArgClass c =>
      length (heap w) <= snd kv /\
      exists o, heap w' !! snd kv = Some o /\ type_of o = c
  end.


(** An input the framework can deliver in [w]: a selection carries one
    of the values the select menu offers. *)
Definition offered (w : World) (inp : Input) : bool :=
  match inp with
  | Select _ (k :: _) => bool_decide (k ∈ keys (settings (view w)))
  | _ => true
  end.

Fixpoint all_offered (inps : list Input) (w : World) : bool :=
  match inps with
  | [] => true
  | inp :: rest => offered w inp && all_offered rest (snd (handle inp w))
  end.
(** *** Further observations *)

(** The state of a setting object after one activation. *)
Definition activated (o : instance) : instance :=
  match o with
  | IBase => IBase
  | IClicker counter => IClicker (counter + 1)
  | IToggle state => IToggle (negb state)
  | IFixTweet state channel => IFixTweet (negb state) channel
  end.

(** How often the control of the setting at [l] is pressed in a run. *)
Fixpoint presses (l : loc) (inps : list Input) : nat :=
  match inps with
  | [] => 0
  | Press _ (cb_action l') :: rest =>
      if bool_decide (l' = l) then Datatypes.S (presses l rest)
      else presses l rest
  | _ :: rest => presses l rest
  end.

(** The durable store gives back the flag last written for a channel. *)
Definition store_reads_back : Prop :=
  forall (g c : Z) (b : bool) (st : Store),
    is_fixtweet_enabled g c (TextChannel_update_fix_twitter c b st) = b.

(** Why an element of the iterable given to [dict_from_settings] makes
    it raise, if it does: a class or an object without [id], or a class
    that cannot be called without argument. *)
Definition arg_error (hp : list instance) (a : setting_arg) : option exn_class :=
  match a with
  | ArgClass BaseSetting => Some AttributeError
  | ArgClass FixTweetSetting => Some TypeError
  | ArgClass _ => None
  | ArgInstance l =>
      match hp !! l with
      | Some IBase => Some AttributeError
      | Some _ => None
      | None => Some SystemError
      end
  end.

(** The object [dict_from_settings] creates for an element. *)
Definition created (a : setting_arg) : option instance :=
  match a with
  | ArgClass ClickerSetting => Some (IClicker 0)
  | ArgClass ToggleSetting => Some (IToggle false)
  | _ => None
  end.

(** What an input does to the setting objects and to the durable store:
    only a press changes them, and only through the pressed object. *)
Definition heap_after (inp : Input) (hp : list instance) : list instance :=
  match inp with
  | Press _ (cb_action l) =>
      match hp !! l with
      | Some o => <[l := activated o]> hp
      | None => hp
      end
  | _ => hp
  end.

Definition store_after (inp : Input) (hp : list instance) (st : Store) : Store :=
  match inp with
  | Press _ (cb_action l) =>
      match hp !! l with
      | Some (IFixTweet state channel) =>
          TextChannel_update_fix_twitter (channel_id channel) (negb state) st
      | _ => st
      end
  | _ => st
  end.

Definition is_deletion (e : Event) : bool :=
  match e with
  | DeleteOriginalResponse _ => true
  | _ => false
  end.
End Observations.

(** One step of a computation whose first part is known. *)
Lemma bind_eq {S A B} (m : M S A) (k : A -> M S B) (s s' : S) (a : A) :
  m s = (Return a, s') -> bind m k s = k a s'.
Proof. intros E. unfold bind. now rewrite E. Qed.

Ltac step := erewrite bind_eq; [|reflexivity].

(** * Properties *)

(** ** Looking a class up by id *)

Lemma getattr_id_Some {S} (c : cls) (i : string) (s : S) :
  attr_id c = Some i -> getattr_id c s = (Return i, s).
Proof. intros E. unfold getattr_id. now rewrite E. Qed.

(** The loop returns the first class of the list carrying the id, when
    every class of the list has an [id] attribute. *)
Lemma cls_from_id_loop_first {S} (subs : list cls) (id : string) (s : S) :
  Forall (fun c => is_Some (attr_id c)) subs ->
  exists r, cls_from_id_loop subs id s = (Return r, s) /\
    match r with
    | Some c =>
        exists n, subs !! n = Some c /\ attr_id c = Some id /\
          forall m c', m < n -> subs !! m = Some c' -> attr_id c' <> Some id
    | None => forall c, c ∈ subs -> attr_id c <> Some id
    end.
Proof.
  induction 1 as [|c subs [sid Hsid] _ IH].
  - exists None. split; [reflexivity|]. intros c Hc. inversion Hc.
  - cbn [cls_from_id_loop]. unfold bind.
    rewrite (getattr_id_Some c sid s Hsid).
    destruct (String.eqb sid id) eqn:E.
    + apply String.eqb_eq in E. subst sid.
      exists (Some c). split; [reflexivity|].
      exists 0. repeat split; auto. intros m c' Hm. lia.
    + apply String.eqb_neq in E.
      destruct IH as (r & Hr & Hspec). exists r. split; [exact Hr|].
      destruct r as [c0|].
      * destruct Hspec as (n & Hn & Hid & Hfirst).
        exists (Datatypes.S n). repeat split; auto.
        intros [|m] c' Hm Hc'; cbn in Hc'.
        -- inversion Hc'. subst c'. congruence.
        -- apply (Hfirst m); [lia|exact Hc'].
      * intros c' Hc'. apply elem_of_cons in Hc' as [->|Hc'].
        -- congruence.
        -- now apply Hspec.
Qed.

(** C10. For every id string, [BaseSetting.cls_from_id] returns (without
    raising, and without touching any state) the first class in
    [BaseSetting.__subclasses__()] whose class attribute [id] equals the
    given id, and [None] when no subclass has that id. *)
Theorem cls_from_id_returns_first_subclass_with_id :
  forall (S : Type) (s : S) (id : string),
  exists r, cls_from_id BaseSetting id s = (Return r, s) /\
    match r with
    | Some c =>
        exists n, __subclasses__ BaseSetting !! n = Some c /\
          attr_id c = Some id /\
          forall m c', m < n -> __subclasses__ BaseSetting !! m = Some c' ->
                       attr_id c' <> Some id
    | None =>
        forall c, c ∈ __subclasses__ BaseSetting -> attr_id c <> Some id
    end.
Proof.
  intros S s id. unfold cls_from_id.
  apply cls_from_id_loop_first.
  repeat constructor; cbn; eauto.
Qed.

(** ** Equality on settings *)

(** After the class body has run, [__eq__] is bound to the last of the
    three definitions: the decorated ones are gone. *)
Lemma BaseSetting_namespace_eq :
  forall self other,
    match dict_get "__eq__" (namespace BaseSetting_body) with
    | Some f => f self other tt
    | None => (Return false, tt)
    end
    = (Raise (Exn TypeError
               ("Cannot compare " +:+ __name__ (type_of self) +:+ " with "
                +:+ type_name other)), tt).
Proof. intros self other. reflexivity. Qed.

(** C9. For every setting instance (of [BaseSetting] or of a subclass) and
    every operand, [__eq__] raises [TypeError] naming the two classes; it
    returns no boolean, whatever the [@overload] signatures announce. *)
Theorem eq_always_raises_TypeError :
  forall (self : instance) (other : pyval),
    __eq__ self other tt
    = (Raise (Exn TypeError
               ("Cannot compare " +:+ __name__ (type_of self) +:+ " with "
                +:+ type_name other)), tt)
    /\ (forall b : bool, fst (__eq__ self other tt) <> Return b).
Proof.
  intros self other.
  assert (E : __eq__ self other tt
              = (Raise (Exn TypeError
                   ("Cannot compare " +:+ __name__ (type_of self) +:+ " with "
                    +:+ type_name other)), tt)).
  { destruct self; reflexivity. }
  split; [exact E|]. intros b. rewrite E. discriminate.
Qed.

(** ** The clean-up task and exceptions *)

(** The [except] clause of the task catches the two classes it names and
    the framework's subclasses of the first, nothing else. *)
Lemma cleanup_clause_catches (e : exn) :
  caught_by [HTTPException; CancelledError] e = true <->
  exn_cls e ∈ [HTTPException; NotFound; Forbidden; CancelledError].
Proof.
  destruct e as [c m]. unfold caught_by. cbn [exn_cls].
  destruct c; cbn; split; intros Hc; try reflexivity; try discriminate;
    try (repeat constructor);
    repeat (apply elem_of_cons in Hc as [Hc|Hc]; [discriminate Hc|]);
    inversion Hc.
Qed.

(** ** Rebuilding the view *)

Section Rebuild.
Context `{Env}.

Lemma mapM_pure {S A B} (f : A -> M S B) (R : A -> B -> Prop) (l : list A) (s : S) :
  (forall a, a ∈ l -> exists b, f a s = (Return b, s) /\ R a b) ->
  exists bs, mapM f l s = (Return bs, s) /\ Forall2 R l bs.
Proof.
  induction l as [|a l IH]; intros Hf.
  - exists []. split; [reflexivity|constructor].
  - destruct (Hf a) as (b & Eb & Rb); [left|].
    destruct IH as (bs & Ebs & Rbs).
    { intros a' Ha'. apply Hf. now right. }
    exists (b :: bs). split; [|now constructor].
    cbn [mapM]. unfold bind. rewrite Eb, Ebs. reflexivity.
Qed.

Lemma attr_id_nonempty (c : cls) (k : string) : attr_id c = Some k -> k <> "".
Proof. destruct c; cbn; intros [= <-]; discriminate. Qed.

Lemma build_option_pure (o : instance) (b : bool) (k : string) :
  attr_id (type_of o) = Some k ->
  exists op, (forall (S : Type) (s : S), build_option o b s = (Return op, s))
             /\ value op = k /\ opt_default op = b.
Proof.
  destruct o; cbn; intros [= <-]; eexists; (split; [intros; reflexivity|]); split; reflexivity.
Qed.

Lemma build_action_pure (l : loc) (o : instance) (k : string) :
  attr_id (type_of o) = Some k ->
  exists b, forall (S : Type) (s : S),
    build_action l o s = (Return [ItemButton b (Some (cb_action l))], s).
Proof.
  destruct o; cbn; intros [= <-]; eexists; intros; reflexivity.
Qed.

Lemma build_embed_pure (o : instance) (b : Bot) (k : string) :
  attr_id (type_of o) = Some k ->
  exists e, forall (S : Type) (s : S), build_embed o b s = (Return e, s).
Proof.
  destruct o; cbn; intros [= <-]; eexists; intros; reflexivity.
Qed.

Lemma dict_get_elem {V} (k : string) (v : V) (d : list (string * V)) :
  dict_get k d = Some v -> (k, v) ∈ d.
Proof.
  induction d as [|[k' v'] d IH]; cbn; [discriminate|].
  destruct (String.eqb k' k) eqn:E.
  - apply String.eqb_eq in E. intros [= ->]. subst. left.
  - intros Hd. right. now apply IH.
Qed.

Lemma dict_get_key {V} (k : string) (d : list (string * V)) :
  k ∈ keys d -> exists v, dict_get k d = Some v.
Proof.
  induction d as [|[k' v'] d IH]; cbn; intros Hk.
  - inversion Hk.
  - destruct (String.eqb k' k) eqn:E; [eauto|].
    apply String.eqb_neq in E.
    apply elem_of_cons in Hk as [Hk|Hk]; [congruence|]. now apply IH.
Qed.

Lemma wf_settings_entry (w : World) (k : string) (l : loc) :
  wf_settings w = true -> (k, l) ∈ settings (view w) ->
  exists o, heap w !! l = Some o /\ attr_id (type_of o) = Some k.
Proof.
  unfold wf_settings. intros Hw Hin.
  apply andb_true_iff in Hw as [_ Hall].
  rewrite forallb_forall in Hall.
  specialize (Hall (k, l)). unfold entry_ok in Hall. cbn [fst snd] in Hall.
  destruct (heap w !! l) as [o|].
  - exists o. split; [reflexivity|].
    eapply bool_decide_eq_true_1. apply Hall. now apply list_elem_of_In.
  - discriminate Hall. now apply list_elem_of_In.
Qed.

Lemma wf_settings_key (w : World) (k : string) :
  wf_settings w = true -> k ∈ keys (settings (view w)) ->
  exists l o, dict_get k (settings (view w)) = Some l /\
              heap w !! l = Some o /\ attr_id (type_of o) = Some k.
Proof.
  intros Hw Hk. destruct (dict_get_key _ _ Hk) as [l Hl].
  destruct (wf_settings_entry w k l Hw (dict_get_elem _ _ _ Hl)) as (o & Ho & Hid).
  eauto.
Qed.

Lemma add_items_spec (l : list Item) (w : World) :
  add_items l w
  = (Return tt, set_view (fun v => with_children (children v ++ l) v) w).
Proof.
  revert w. induction l as [|i l IH]; intros w.
  - cbn. unfold ret, set_view, with_children. rewrite app_nil_r.
    destruct w as [hp [] ts st lg]; reflexivity.
  - cbn [add_items]. unfold bind, add_item, modify. rewrite IH.
    unfold set_view, with_children; cbn. now rewrite <- app_assoc.
Qed.

Lemma dict_getitem_Some {S V} (k : string) (d : list (string * V)) (v : V) (s : S) :
  dict_get k d = Some v -> dict_getitem k d s = (Return v, s).
Proof. intros E. unfold dict_getitem. now rewrite E. Qed.

Lemma deref_Some (l : loc) (o : instance) (w : World) :
  heap w !! l = Some o -> deref l w = (Return o, w).
Proof. intros E. unfold deref. now rewrite E. Qed.

Lemma build_options_spec (w w1 : World) (sel : option string) :
  wf_settings w = true -> heap w1 = heap w ->
  exists options,
    mapM (fun setting_id =>
            l <- dict_getitem setting_id (settings (view w)) ;;
            o <- deref l ;;
            build_option o (eq_selected setting_id sel))
         (keys (settings (view w))) w1 = (Return options, w1)
    /\ Forall2 (fun k op =>
          exists l o, dict_get k (settings (view w)) = Some l /\
                      heap w !! l = Some o /\
                      attr_id (type_of o) = Some k /\
                      forall (S : Type) (s : S),
                        build_option o (eq_selected k sel) s = (Return op, s))
         (keys (settings (view w))) options.
Proof.
  intros Hset Hh. apply mapM_pure. intros k Hk.
  destruct (wf_settings_key w k Hset Hk) as (l & o & Hl & Ho & Hid).
  destruct (build_option_pure o (eq_selected k sel) k Hid) as (op & Hop & _).
  exists op. split.
  - cbn beta. erewrite bind_eq; [|apply dict_getitem_Some; eassumption].
    erewrite bind_eq; [|apply deref_Some; rewrite Hh; eassumption].
    apply Hop.
  - exists l, o. auto.
Qed.

Lemma _build_items_spec (w : World) :
  wf w = true ->
  exists items options,
    _build_items w
    = (Return tt,
       set_view (with_children
                   (items ++ [ItemSelect options (Some cb_select_parameter)])) w)
    /\ items_for w items options.
Proof.
  intros Hwf. apply andb_true_iff in Hwf as [Hset Hsel].
  unfold _build_items, items_for. step. step.
  change (view (set_view (with_children []) w)) with (with_children [] (view w)).
  cbn [selected_id settings with_children].
  unfold wf_selected in Hsel.
  destruct (selected_id (view w)) as [k|] eqn:Esel.
  - apply bool_decide_eq_true in Hsel.
    destruct (wf_settings_key w k Hset Hsel) as (l & o & Hl & Ho & Hid).
    destruct (build_action_pure l o k Hid) as (b & Hb).
    erewrite bind_eq; cycle 1.
    { erewrite bind_eq; [|apply dict_getitem_Some; eassumption].
      erewrite bind_eq; [|apply deref_Some; exact Ho].
      erewrite bind_eq; [|apply Hb].
      apply add_items_spec. }
    match goal with |- context [bind (mapM ?f ?ks) _ ?w1] =>
      destruct (build_options_spec w w1 (Some k) Hset) as (options & Em & Hf);
        [reflexivity|] end.
    erewrite bind_eq; [|apply Em].
    exists [ItemButton b (Some (cb_action l))], options. split.
    + reflexivity.
    + split; [|exact Hf]. exists l, o. auto.
  - step.
    match goal with |- context [bind (mapM ?f ?ks) _ ?w1] =>
      destruct (build_options_spec w w1 None Hset) as (options & Em & Hf);
        [reflexivity|] end.
    erewrite bind_eq; [|apply Em].
    exists [], options. split; [reflexivity|].
    split; [reflexivity | exact Hf].
Qed.

Lemma wf_selected_truthy (w : World) (k : string) :
  wf w = true -> selected_id (view w) = Some k -> truthy (Some k) = true.
Proof.
  intros Hwf Esel. apply andb_true_iff in Hwf as [Hset Hsel].
  unfold wf_selected in Hsel. rewrite Esel in Hsel.
  apply bool_decide_eq_true in Hsel.
  destruct (wf_settings_key w k Hset Hsel) as (l & o & _ & _ & Hid).
  apply attr_id_nonempty in Hid. cbn.
  apply negb_true_iff. now apply String.eqb_neq.
Qed.

Lemma build_spec (w : World) :
  wf w = true ->
  exists items options e,
    build w = (Return tt, set_view (rebuilt items options e) w)
    /\ items_for w items options /\ embed_for w e.
Proof.
  intros Hwf.
  destruct (_build_items_spec w Hwf) as (items & options & Eb & Hitems).
  unfold build, embed_for.
  erewrite bind_eq; [|apply Eb]. step.
  cbn [view set_view selected_id with_children settings bot].
  assert (Htr := fun k => wf_selected_truthy w k Hwf).
  apply andb_true_iff in Hwf as [Hset Hsel]. unfold wf_selected in Hsel.
  destruct (selected_id (view w)) as [k|] eqn:Esel.
  - rewrite (Htr k eq_refl).
    apply bool_decide_eq_true in Hsel.
    destruct (wf_settings_key w k Hset Hsel) as (l & o & Hl & Ho & Hid).
    destruct (build_embed_pure o (bot (view w)) k Hid) as (e & He).
    erewrite bind_eq; cycle 1.
    { erewrite bind_eq; [|apply dict_getitem_Some; eassumption].
      erewrite bind_eq; [|apply deref_Some; exact Ho].
      apply He. }
    exists items, options, e. split; [reflexivity|]. split; [exact Hitems|].
    exists l, o. auto.
  - cbn [truthy]. step.
    exists items, options, (default_embed (bot (view w))).
    split; [reflexivity|]. split; [exact Hitems|reflexivity].
Qed.

Lemma length_request_cancel (h : nat) (ts : list Task) :
  length (request_cancel h ts) = length ts.
Proof.
  unfold request_cancel. destruct (ts !! h) as [tk|]; [|reflexivity].
  destruct (task_state tk); [apply length_insert|reflexivity|reflexivity].
Qed.

Lemma refresh_spec (w : World) (i : Interaction) :
  wf w = true ->
  exists items options e,
    items_for w items options /\ embed_for w e /\
    let v' := rebuilt items options e (view w) in
    let lg := log w ++ [CallRefresh i; response_event i v'] in
    refresh i w
    = match response_error i with
      | Some x =>
          (Raise x, {| heap := heap w; view := v'; tasks := tasks w;
                       store := store w; log := lg |})
      | None =>
          (Return tt,
           {| heap := heap w;
              view := with_timeout_task (Some (length (tasks w))) v';
              tasks := rescheduled i (timeout_task (view w)) (tasks w);
              store := store w;
              log := lg ++ reschedule_events (timeout_task (view w))
                             (length (tasks w)) |})
      end.
Proof.
  intros Hwf.
  destruct (build_spec (snd (emit (CallRefresh i) w)) Hwf)
    as (items & options & e & Eb & Hitems & Hembed).
  exists items, options, e. split; [exact Hitems|]. split; [exact Hembed|].
  cbn zeta. unfold refresh. step.
  erewrite bind_eq; [|apply Eb]. step.
  unfold response_event, rescheduled, reschedule_events.
  destruct (message i), (response_error i) as [x|], (timeout_task (view w)) as [h|] eqn:Et;
    cbn; unfold bind, emit, modify, raise_if, raise, ret, cancel, create_task, get, set_view, set_tasks;
    cbn; rewrite ?Et; cbn; rewrite <- ?app_assoc; cbn;
    rewrite ?length_request_cancel; try reflexivity.
Qed.
End Rebuild.

(** ** What a rebuild shows *)

Section ViewClaims.
Context `{Env}.

Lemma eq_selected_true (k : string) (sel : option string) :
  eq_selected k sel = true <-> sel = Some k.
Proof.
  destruct sel as [s|]; cbn.
  - rewrite String.eqb_eq. split; [intros ->; reflexivity|intros [= ->]; reflexivity].
  - split; discriminate.
Qed.

(** The options of a rebuild carry the keys in order, and only the
    selected key is flagged. *)
Lemma options_values (w : World) (items : list Item) (options : list SelectOption) :
  items_for w items options ->
  map value options = keys (settings (view w)) /\
  forall op, op ∈ options ->
    (opt_default op = true <-> selected_id (view w) = Some (value op)).
Proof.
  intros [_ Hf].
  induction Hf as [|k op ks ops (l & o & Hl & Ho & Hid & Hop) _ [IH1 IH2]].
  - split; [reflexivity|]. intros op Hop. inversion Hop.
  - destruct (build_option_pure o (eq_selected k (selected_id (view w))) k Hid)
      as (op' & Hop' & Hv & Hd).
    assert (op = op') as ->.
    { specialize (Hop unit tt). specialize (Hop' unit tt). congruence. }
    split.
    + cbn. now rewrite Hv, IH1.
    + intros op Hin. apply elem_of_cons in Hin as [->|Hin]; [|now apply IH2].
      rewrite Hd, Hv. apply eq_selected_true.
Qed.

(** C7. After [_build_items] the items of the view are the action
    controls of the selected setting (bound to that object's [action]),
    none when nothing is selected, followed by the select menu; the menu
    has one option per setting of the mapping, in the order of its keys,
    and an option is marked as default exactly when its value is the
    selected id. *)
Theorem build_items_controls_of_selected_only :
  forall w : World, wf w = true ->
  exists items options,
    _build_items w
    = (Return tt,
       set_view (with_children
                   (items ++ [ItemSelect options (Some cb_select_parameter)])) w)
    /\ match selected_id (view w) with
       | Some k =>
           exists l o, dict_get k (settings (view w)) = Some l /\
                       heap w !! l = Some o /\
                       build_action l o w = (Return items, w) /\
                       forall it, it ∈ items ->
                                  exists b, it = ItemButton b (Some (cb_action l))
       | None => items = []
       end
    /\ map value options = keys (settings (view w))
    /\ NoDup (map value options)
    /\ forall op, op ∈ options ->
         (opt_default op = true <-> selected_id (view w) = Some (value op)).
Proof.
  intros w Hwf.
  destruct (_build_items_spec w Hwf) as (items & options & Eb & Hitems).
  exists items, options. split; [exact Eb|].
  destruct (options_values w items options Hitems) as [Hv Hd].
  split; [|split; [exact Hv|split; [|exact Hd]]].
  - destruct Hitems as [Hsel _].
    destruct (selected_id (view w)) as [k|]; [|exact Hsel].
    destruct Hsel as (l & o & Hl & Ho & Hid & Hact).
    exists l, o. repeat split; auto.
    destruct (build_action_pure l o k Hid) as (b & Hb).
    specialize (Hact unit tt). rewrite Hb in Hact. injection Hact as <-.
    intros it Hit. apply list_elem_of_singleton in Hit as ->. eauto.
  - rewrite Hv. apply andb_true_iff in Hwf as [Hset _].
    apply andb_true_iff in Hset as [Hnd _].
    now apply bool_decide_eq_true in Hnd.
Qed.

(** C6. [build] sets the embed of the view to the embed the selected
    setting builds when an id is selected, and to the overview embed
    (title [settings.title], description [settings.description]) when
    none is. *)
Theorem build_sets_embed_of_selected_or_overview :
  forall w : World, wf w = true ->
  exists e,
    fst (build w) = Return tt /\
    embed (view (snd (build w))) = Some e /\
    match selected_id (view w) with
    | Some k =>
        exists l o, dict_get k (settings (view w)) = Some l /\
                    heap w !! l = Some o /\
                    build_embed o (bot (view w)) w = (Return e, w)
    | None =>
        e = set_embed_footer (bot (view w))
              {| title := t "settings.title" [];
                 description := t "settings.description" [];
                 footer := None |}
    end.
Proof.
  intros w Hwf.
  destruct (build_spec w Hwf) as (items & options & e & Eb & _ & Hembed).
  exists e. rewrite Eb. split; [reflexivity|]. split; [reflexivity|].
  unfold embed_for in Hembed.
  destruct (selected_id (view w)) as [k|]; [|exact Hembed].
  destruct Hembed as (l & o & Hl & Ho & He). exists l, o. auto.
Qed.

(** C5. Every [refresh] makes exactly one response call, after the
    rebuild and with the rebuilt items and embed: [edit_message] when the
    interaction carries a message, an ephemeral [send_message] otherwise. *)
Theorem refresh_edits_or_sends_exactly_once :
  forall (w : World) (i : Interaction), wf w = true ->
  let w' := snd (refresh i w) in
  exists ev,
    List.filter is_response (since w w') = [ev] /\
    match message i with
    | Some _ => ev = EditMessage i (children (view w')) (embed (view w'))
    | None => ev = SendMessage i (children (view w')) (embed (view w')) true
    end.
Proof.
  intros w i Hwf w'. subst w'.
  destruct (refresh_spec w i Hwf) as (items & options & e & _ & _ & Er).
  cbn zeta in Er. rewrite Er. clear Er.
  unfold since, response_event, reschedule_events.
  destruct (response_error i) as [x|]; cbn [snd log];
    rewrite <- ?app_assoc, drop_app_length;
    destruct (message i), (timeout_task (view w)); cbn; eexists; split; reflexivity.
Qed.

(** C4. For every id [k] of the settings mapping, once
    [select_parameter] has stored [k] as the selected id, the rebuild it
    triggers leaves the view with the embed and the action controls built
    by the setting stored under [k], and these are what the response call
    carries. *)
Theorem select_parameter_shows_selected_setting :
  forall (w : World) (i : Interaction) (k : string) (rest : list string),
  wf_settings w = true -> k ∈ keys (settings (view w)) ->
  let w' := snd (select_parameter i (k :: rest) w) in
  exists l o items options e,
    dict_get k (settings (view w)) = Some l /\
    heap w !! l = Some o /\
    build_action l o w = (Return items, w) /\
    build_embed o (bot (view w)) w = (Return e, w) /\
    selected_id (view w') = Some k /\
    embed (view w') = Some e /\
    children (view w') = items ++ [ItemSelect options (Some cb_select_parameter)] /\
    map value options = keys (settings (view w)) /\
    response_event i (view w') ∈ since w w'.
Proof.
  intros w i k rest Hset Hk w'. subst w'.
  set (w1 := set_view (with_selected_id (Some k)) w).
  assert (Hwf1 : wf w1 = true).
  { apply andb_true_iff. split; [exact Hset|].
    unfold wf_selected. cbn. now apply bool_decide_eq_true. }
  destruct (refresh_spec w1 i Hwf1) as (items & options & e & Hitems & Hembed & Er).
  cbn zeta in Er.
  assert (Es : select_parameter i (k :: rest) w = refresh i w1).
  { unfold select_parameter. step. step. reflexivity. }
  rewrite Es, Er. clear Es Er.
  destruct (options_values w1 items options Hitems) as [Hv _].
  destruct Hitems as [Hsel _]. unfold embed_for in Hembed.
  cbn [w1 view set_view selected_id with_selected_id] in Hsel, Hembed.
  destruct Hsel as (l & o & Hl & Ho & Hid & Hact).
  destruct Hembed as (l' & o' & Hl' & Ho' & He).
  cbn [settings heap] in *.
  assert (l' = l) as -> by congruence. assert (o' = o) as -> by congruence.
  exists l, o, items, options, e.
  split; [exact Hl|]. split; [exact Ho|]. split; [apply Hact|]. split; [apply He|].
  unfold since, response_event.
  destruct (response_error i) as [x|]; cbn [snd log view];
    rewrite <- ?app_assoc, drop_app_length;
    (repeat split; [exact Hv|]);
    destruct (message i); cbn; rewrite !elem_of_cons; auto.
Qed.
End ViewClaims.


(** ** Activation and the single clean-up task *)

Section Frame.
Context `{Env}.

Lemma rerendered_refl (w : World) : rerendered w w.
Proof.
  exists (children (view w)), (embed (view w)).
  destruct w as [hp [] ts st lg]. reflexivity.
Qed.

Lemma rerendered_trans (w1 w2 w3 : World) :
  rerendered w1 w2 -> rerendered w2 w3 -> rerendered w1 w3.
Proof.
  intros (c & e & ->) (c' & e' & ->). exists c', e'. reflexivity.
Qed.

Lemma keeps_bind {A B} (m : M World A) (k : A -> M World B) :
  keeps m -> (forall a, keeps (k a)) -> keeps (bind m k).
Proof.
  intros Hm Hk w. unfold bind. specialize (Hm w).
  destruct (m w) as [[a|e] w1]; cbn [snd] in *; [|exact Hm].
  eapply rerendered_trans; [exact Hm|apply Hk].
Qed.

Lemma keeps_pure {A} (m : M World A) :
  (forall w, snd (m w) = w) -> keeps m.
Proof. intros Hm w. rewrite Hm. apply rerendered_refl. Qed.

Lemma build_action_state {S} (l : loc) (o : instance) (s : S) :
  snd (build_action l o s) = s.
Proof. destruct o; reflexivity. Qed.

Lemma build_option_state {S} (o : instance) (b : bool) (s : S) :
  snd (build_option o b s) = s.
Proof. destruct o; reflexivity. Qed.

Lemma build_embed_state {S} (o : instance) (b : Bot) (s : S) :
  snd (build_embed o b s) = s.
Proof. destruct o; reflexivity. Qed.

Lemma dict_getitem_state {S V} (k : string) (d : list (string * V)) (s : S) :
  snd (dict_getitem k d s) = s.
Proof. unfold dict_getitem. destruct (dict_get k d); reflexivity. Qed.

Lemma deref_state (l : loc) (w : World) : snd (deref l w) = w.
Proof. unfold deref. destruct (heap w !! l); reflexivity. Qed.

Lemma keeps_mapM {A B} (f : A -> M World B) (l : list A) :
  (forall a, keeps (f a)) -> keeps (mapM f l).
Proof.
  intros Hf. induction l as [|a l IH]; cbn [mapM].
  - apply keeps_pure. reflexivity.
  - apply keeps_bind; [apply Hf|]. intros b.
    apply keeps_bind; [exact IH|]. intros bs. apply keeps_pure. reflexivity.
Qed.

Lemma keeps_add_item (i : Item) : keeps (add_item i).
Proof.
  intros w. exists (children (view w) ++ [i]), (embed (view w)).
  destruct w as [hp [] ts st lg]. reflexivity.
Qed.

Lemma keeps_add_items (l : list Item) : keeps (add_items l).
Proof.
  induction l as [|i l IH]; cbn [add_items].
  - apply keeps_pure. reflexivity.
  - apply keeps_bind; [apply keeps_add_item|]. intros _. exact IH.
Qed.

Lemma keeps_lookup (k : string) (d : list (string * loc)) :
  keeps (l <- dict_getitem k d ;; deref l).
Proof.
  apply keeps_bind; [apply keeps_pure, dict_getitem_state|].
  intros l. apply keeps_pure, deref_state.
Qed.

Lemma keeps__build_items : keeps _build_items.
Proof.
  unfold _build_items.
  apply keeps_bind.
  { intros w. exists [], (embed (view w)). destruct w as [hp [] ts st lg]. reflexivity. }
  intros _. apply keeps_bind; [apply keeps_pure; reflexivity|]. intros v.
  apply keeps_bind.
  { destruct (selected_id v) as [sid|]; [|apply keeps_pure; reflexivity].
    apply keeps_bind; [apply keeps_pure, dict_getitem_state|]. intros l.
    apply keeps_bind; [apply keeps_pure, deref_state|]. intros o.
    apply keeps_bind; [apply keeps_pure; intros; apply build_action_state|].
    intros items. apply keeps_add_items. }
  intros _. apply keeps_bind.
  { apply keeps_mapM. intros k.
    apply keeps_bind; [apply keeps_pure, dict_getitem_state|]. intros l.
    apply keeps_bind; [apply keeps_pure, deref_state|]. intros o.
    apply keeps_pure. intros; apply build_option_state. }
  intros options. apply keeps_add_item.
Qed.

Lemma keeps_build : keeps build.
Proof.
  unfold build. apply keeps_bind; [apply keeps__build_items|]. intros _.
  apply keeps_bind; [apply keeps_pure; reflexivity|]. intros v.
  apply keeps_bind.
  { destruct (truthy (selected_id v)); [|apply keeps_pure; reflexivity].
    destruct (selected_id v) as [sid|]; [|apply keeps_pure; reflexivity].
    apply keeps_bind; [apply keeps_pure, dict_getitem_state|]. intros l.
    apply keeps_bind; [apply keeps_pure, deref_state|]. intros o.
    apply keeps_pure. intros; apply build_embed_state. }
  intros e w. exists (children (view w)), (Some e).
  destruct w as [hp [] ts st lg]. reflexivity.
Qed.

(** [refresh] in any world: the rebuild raises and nothing else happens,
    or the response call is made and, when it succeeds, the clean-up is
    rescheduled. *)
Lemma refresh_cases (w : World) (i : Interaction) :
  exists c e,
    let v' := with_embed e (with_children c (view w)) in
    let lg := log w ++ [CallRefresh i] in
    (exists x, refresh i w
               = (Raise x, {| heap := heap w; view := v'; tasks := tasks w;
                              store := store w; log := lg |}))
    \/ (exists x, refresh i w
               = (Raise x, {| heap := heap w; view := v'; tasks := tasks w;
                              store := store w;
                              log := lg ++ [response_event i v'] |}))
    \/ refresh i w
       = (Return tt,
          {| heap := heap w;
             view := with_timeout_task (Some (length (tasks w))) v';
             tasks := rescheduled i (timeout_task (view w)) (tasks w);
             store := store w;
             log := lg ++ [response_event i v']
                       ++ reschedule_events (timeout_task (view w))
                            (length (tasks w)) |}).
Proof.
  remember (snd (emit (CallRefresh i) w)) as w0 eqn:Ew0.
  destruct (keeps_build w0) as (c & e & Eb).
  exists c, e. cbn zeta.
  remember (refresh i w) as r eqn:Er.
  unfold refresh in Er.
  rewrite (bind_eq _ _ w w0 tt) in Er by (subst w0; reflexivity).
  unfold bind at 1 in Er.
  destruct (build w0) as [[[]|x] wb]; cbn [snd] in Eb; subst wb w0.
  2:{ left. exists x. exact Er. }
  right. subst r.
  unfold response_event, rescheduled, reschedule_events.
  destruct (message i), (response_error i) as [x|], (timeout_task (view w)) as [h|] eqn:Et;
    cbn; unfold bind, emit, modify, raise_if, raise, ret, cancel, create_task, get, set_view, set_tasks;
    cbn; rewrite ?Et; cbn; rewrite <- ?app_assoc; cbn;
    rewrite ?length_request_cancel; eauto.
Qed.

Lemma refresh_frame (w : World) (i : Interaction) :
  let w' := snd (refresh i w) in
  heap w' = heap w /\ store w' = store w /\
  settings (view w') = settings (view w) /\
  selected_id (view w') = selected_id (view w) /\
  exists evs, log w' = log w ++ CallRefresh i :: evs /\
              List.filter is_refresh_call evs = [].
Proof.
  destruct (refresh_cases w i) as (c & e & Hc). cbn zeta in Hc |- *.
  destruct Hc as [[x ->]|[[x ->]| ->]]; cbn [snd heap store view log settings
    selected_id with_timeout_task with_embed with_children];
    repeat (split; [reflexivity|]).
  - exists []. split; reflexivity.
  - exists [response_event i (with_embed e (with_children c (view w)))].
    split; [now rewrite <- app_assoc|].
    unfold response_event. destruct (message i); reflexivity.
  - eexists. split; [rewrite <- app_assoc; reflexivity|].
    unfold response_event, reschedule_events.
    destruct (message i), (timeout_task (view w)); reflexivity.
Qed.

(** *** Single flight *)

Lemma request_cancel_lookup (h h' : nat) (ts : list Task) (tk : Task) :
  request_cancel h ts !! h' = Some tk -> task_state tk = Scheduled ->
  h' <> h /\ ts !! h' = Some tk.
Proof.
  unfold request_cancel. intros Hl Hs.
  destruct (ts !! h) as [tk0|] eqn:E0.
  - destruct (task_state tk0) eqn:Es0.
    + destruct (decide (h' = h)) as [->|Hne].
      * rewrite list_lookup_insert_eq in Hl by (eapply lookup_lt_Some; eauto).
        injection Hl as <-. discriminate Hs.
      * rewrite list_lookup_insert_ne in Hl by congruence. auto.
    + split; [|exact Hl]. intros ->. congruence.
    + split; [|exact Hl]. intros ->. congruence.
  - split; [|exact Hl]. intros ->. congruence.
Qed.

Lemma refresh_single_flight (w : World) (i : Interaction) :
  single_flight w -> single_flight (snd (refresh i w)).
Proof.
  intros Hsf. destruct (refresh_cases w i) as (c & e & Hc). cbn zeta in Hc.
  destruct Hc as [[x ->]|[[x ->]| ->]]; cbn [snd]; try exact Hsf.
  intros h' tk Hl Hs. cbn [view tasks timeout_task with_timeout_task] in *.
  f_equal. unfold rescheduled in Hl.
  apply lookup_app_Some in Hl as [Hl|[Hlen Hl]].
  - exfalso. destruct (timeout_task (view w)) as [h|] eqn:Et.
    + destruct (request_cancel_lookup h h' (tasks w) tk Hl Hs) as [Hne Hl'].
      specialize (Hsf h' tk Hl' Hs). congruence.
    + specialize (Hsf h' tk Hl Hs). congruence.
  - assert (Hlt : h' - length (match timeout_task (view w) with
                                 | Some h => request_cancel h (tasks w)
                                 | None => tasks w end) < 1).
    { apply lookup_lt_Some in Hl. exact Hl. }
    assert (El : length (match timeout_task (view w) with
                         | Some h => request_cancel h (tasks w)
                         | None => tasks w end) = length (tasks w)).
    { destruct (timeout_task (view w)); [apply length_request_cancel|reflexivity]. }
    rewrite El in *. lia.
Qed.

Lemma single_flight_ext (w w' : World) :
  tasks w' = tasks w -> timeout_task (view w') = timeout_task (view w) ->
  single_flight w -> single_flight w'.
Proof. intros Et Eh Hsf h tk. rewrite Et, Eh. apply Hsf. Qed.

Lemma run_task_single_flight (w : World) (h : nat) (r : option exn) :
  single_flight w -> single_flight (snd (run_task h r w)).
Proof.
  intros Hsf. unfold run_task, _message_delete_after_task. step.
  destruct (tasks w !! h) as [tk|] eqn:Eh; [|exact Hsf].
  assert (Hbody : forall sl : M World unit,
            (forall w0, tasks (snd (sl w0)) = tasks w0
                        /\ view (snd (sl w0)) = view w0) ->
            let w1 := snd (_message_delete_after sl
                       (emit (DeleteOriginalResponse (task_interaction tk)) ;;;
                        raise_if r) w) in
            tasks w1 = tasks w /\ view w1 = view w).
  { intros sl Hsl. cbn zeta. unfold _message_delete_after, try_except, bind.
    destruct (Hsl w) as [Ht Hv].
    destruct (sl w) as [[[]|x] w0]; cbn [snd] in *.
    - unfold emit, modify, raise_if.
      destruct r as [x|]; cbn [raise ret bind snd fst];
        [destruct (caught_by [HTTPException; CancelledError] x)|]; cbn; auto.
    - destruct (caught_by [HTTPException; CancelledError] x); cbn; auto. }
  assert (Hfin : forall w1 : World, tasks w1 = tasks w -> view w1 = view w ->
            single_flight (set_tasks (fun ts => <[h := set_task_state Finished tk]> ts) w1)).
  { intros w1 Et Ev h' tk' Hl Hs. cbn [tasks view set_tasks] in *.
    rewrite Et in Hl. rewrite Ev.
    destruct (decide (h' = h)) as [->|Hne].
    - rewrite list_lookup_insert_eq in Hl by (eapply lookup_lt_Some; eauto).
      injection Hl as <-. discriminate Hs.
    - rewrite list_lookup_insert_ne in Hl by congruence. eapply Hsf; eauto. }
  destruct (task_state tk); [| |exact Hsf].
  - specialize (Hbody (ret tt) (fun w0 => conj eq_refl eq_refl)). cbn zeta in Hbody.
    destruct (_message_delete_after _ _ w) as [r1 w1]. cbn [snd] in *.
    apply Hfin; tauto.
  - specialize (Hbody (raise (Exn CancelledError "")) (fun w0 => conj eq_refl eq_refl)).
    cbn zeta in Hbody.
    destruct (_message_delete_after _ _ w) as [r1 w1]. cbn [snd] in *.
    apply Hfin; tauto.
Qed.

Lemma select_parameter_single_flight (w : World) (i : Interaction) (values : list string) :
  single_flight w -> single_flight (snd (select_parameter i values w)).
Proof.
  intros Hsf. unfold select_parameter.
  destruct values as [|x rest]; [exact Hsf|].
  step. step. apply refresh_single_flight.
  eapply single_flight_ext; [| |exact Hsf]; reflexivity.
Qed.

Lemma action_single_flight (w : World) (l : loc) (i : Interaction) :
  single_flight w -> single_flight (snd (action l i w)).
Proof.
  intros Hsf. unfold action, bind at 1, deref.
  destruct (heap w !! l) as [o|]; [|exact Hsf].
  destruct o as [|counter|state|state channel]; [exact Hsf| | |];
    [unfold ClickerSetting_action|unfold ToggleSetting_action
    |unfold FixTweetSetting_action; step]; step;
    apply refresh_single_flight;
    (eapply single_flight_ext; [| |exact Hsf]; reflexivity).
Qed.

Lemma handle_single_flight (w : World) (inp : Input) :
  single_flight w -> single_flight (snd (handle inp w)).
Proof.
  destruct inp as [i|i values|i [l|]|h r]; cbn [handle].
  - apply refresh_single_flight.
  - apply select_parameter_single_flight.
  - apply action_single_flight.
  - apply select_parameter_single_flight.
  - apply run_task_single_flight.
Qed.

Lemma run_single_flight (inps : list Input) (w : World) :
  single_flight w -> single_flight (run inps w).
Proof.
  revert w. induction inps as [|inp inps IH]; intros w Hsf; cbn [run].
  - exact Hsf.
  - apply IH, handle_single_flight, Hsf.
Qed.

Lemma filter_at_most_one {A} (P : A -> bool) (l : list A) :
  (forall n m x y, l !! n = Some x -> l !! m = Some y ->
                   P x = true -> P y = true -> n = m) ->
  length (List.filter P l) <= 1.
Proof.
  induction l as [|a l IH]; intros Hu; cbn [List.filter]; [cbn; lia|].
  destruct (P a) eqn:Pa.
  - assert (El : List.filter P l = []).
    { destruct (List.filter P l) as [|b l'] eqn:Ef; [reflexivity|exfalso].
      assert (Hb : In b (List.filter P l)) by (rewrite Ef; now left).
      apply filter_In in Hb as [Hb Pb].
      apply list_elem_of_In, list_elem_of_lookup in Hb as [m Hm].
      specialize (Hu 0 (Datatypes.S m) a b eq_refl Hm Pa Pb). discriminate Hu. }
    rewrite El. cbn. lia.
  - apply IH. intros n m x y Hn Hm Px Py.
    specialize (Hu (Datatypes.S n) (Datatypes.S m) x y Hn Hm Px Py). lia.
Qed.

Lemma single_flight_pending (w : World) : single_flight w -> pending w <= 1.
Proof.
  intros Hsf. unfold pending. apply filter_at_most_one.
  intros n m x y Hn Hm Px Py.
  apply bool_decide_eq_true in Px, Py.
  pose proof (Hsf n x Hn Px) as E1. pose proof (Hsf m y Hm Py) as E2. congruence.
Qed.

Lemma init_spec (i : Interaction) (ch : TextChannel) (w0 : World) :
  SettingsView__init__ i ch w0
  = (Return tt,
     {| heap := heap w0 ++ [IFixTweet
                              (is_fixtweet_enabled
                                 (guild_id (interaction_channel i))
                                 (channel_id (interaction_channel i)) (store w0))
                              (interaction_channel i)];
        view := {| children := []; selected := None; bot := client i;
                   channel := ch; embed := None;
                   settings := [("fixtweet", length (heap w0))];
                   selected_id := None; timeout_task := None |};
        tasks := tasks w0; store := store w0; log := log w0 |}).
Proof.
  unfold SettingsView__init__. step.
  erewrite bind_eq; cycle 1.
  { unfold FixTweetSetting__init__. step. reflexivity. }
  erewrite bind_eq; cycle 1.
  { unfold dict_from_settings. cbn [dict_from_settings_loop].
    erewrite bind_eq; cycle 1.
    { erewrite bind_eq; cycle 1.
      { apply deref_Some. cbn. apply list_lookup_middle. reflexivity. }
      reflexivity. }
    step. reflexivity. }
  reflexivity.
Qed.

(** C1. Every call of [refresh] either raises before it touches the
    tasks (the rebuild or the response call failed: no task is cancelled
    or created, the stored handle stays), or runs to its end, and then the
    calls it has made are the response call, [cancel] on the stored handle
    when there is one, and only after it the creation of the new task,
    whose handle it stores; the new task is scheduled and the old one no
    longer is.  Consequently, after any sequence of refreshes, selections,
    activations and task runs, from any world where every scheduled task
    is the one the view holds (in particular from a freshly constructed
    view), at most one countdown is pending. *)
Theorem refresh_cancels_then_reschedules_single_flight :
  (forall (w : World) (i : Interaction),
     let w' := snd (refresh i w) in
     let n := length (tasks w) in
     (exists x, fst (refresh i w) = Raise x /\
                tasks w' = tasks w /\
                timeout_task (view w') = timeout_task (view w) /\
                List.filter is_task_event (since w w') = [])
     \/ (fst (refresh i w) = Return tt /\
         (exists resp, is_response resp = true /\
            since w w'
            = [CallRefresh i; resp]
              ++ match timeout_task (view w) with
                 | Some h => [TaskCancel h; CreateTask n]
                 | None => [CreateTask n]
                 end) /\
         timeout_task (view w') = Some n /\
         tasks w' !! n
         = Some {| task_interaction := i; task_state := Scheduled |} /\
         forall h tk, timeout_task (view w) = Some h -> tasks w !! h = Some tk ->
           exists tk', tasks w' !! h = Some tk' /\ task_state tk' <> Scheduled))
  /\ (forall (inputs : list Input) (w : World),
        single_flight w -> pending (run inputs w) <= 1)
  /\ (forall (i : Interaction) (ch : TextChannel) (w0 : World)
             (inputs : list Input),
        tasks w0 = [] ->
        pending (run inputs (snd (SettingsView__init__ i ch w0))) <= 1).
Proof.
  split; [|split].
  - intros w i w' n. subst w' n.
    destruct (refresh_cases w i) as (c & e & Hc). cbn zeta in Hc.
    assert (Hresp : forall v, is_response (response_event i v) = true).
    { intros v. unfold response_event. destruct (message i); reflexivity. }
    destruct Hc as [[x Er]|[[x Er]| Er]]; rewrite Er;
      cbn [fst snd view tasks log timeout_task with_timeout_task];
      unfold since; cbn [log]; rewrite <- ?app_assoc, drop_app_length.
    + left. exists x. repeat split; reflexivity.
    + left. exists x. repeat (split; [reflexivity|]).
      cbn [List.filter is_task_event app].
      unfold response_event. destruct (message i); reflexivity.
    + right. split; [reflexivity|]. split; [|split; [reflexivity|split]].
      * eexists. split; [apply Hresp|]. unfold reschedule_events.
        destruct (timeout_task (view w)); reflexivity.
      * unfold rescheduled.
        destruct (timeout_task (view w));
          rewrite lookup_app_r by (rewrite ?length_request_cancel; lia);
          rewrite ?length_request_cancel, Nat.sub_diag; reflexivity.
      * intros h tk Eh Htk. rewrite Eh. unfold rescheduled.
        assert (Hlt : h < length (tasks w)) by (eapply lookup_lt_Some; eauto).
        rewrite lookup_app_l by (rewrite length_request_cancel; lia).
        unfold request_cancel. rewrite Htk.
        destruct (task_state tk) eqn:Es.
        -- eexists. split; [now apply list_lookup_insert_eq|]. discriminate.
        -- exists tk. split; [exact Htk|congruence].
        -- exists tk. split; [exact Htk|congruence].
  - intros inputs w Hsf. apply single_flight_pending, run_single_flight, Hsf.
  - intros i ch w0 inputs Et.
    apply single_flight_pending, run_single_flight.
    rewrite init_spec. intros h tk Hl. cbn [snd tasks] in Hl. rewrite Et in Hl.
    discriminate Hl.
Qed.
End Frame.

(** ** The settings dictionary *)

Section DictLemmas.
Context {V : Type}.
Implicit Types (d : list (string * V)) (k : string) (v : V).

Lemma dict_get_set k k' v d :
  dict_get k (dict_set k' v d) = if String.eqb k' k then Some v else dict_get k d.
Proof.
  induction d as [|[k0 v0] d IH]; cbn.
  - reflexivity.
  - destruct (String.eqb k0 k') eqn:E0; cbn.
    + apply String.eqb_eq in E0. subst k0.
      destruct (String.eqb k' k); reflexivity.
    + rewrite IH. destruct (String.eqb k0 k) eqn:E1; [|reflexivity].
      apply String.eqb_eq in E1. subst k0.
      now rewrite String.eqb_sym, E0.
Qed.

Lemma keys_dict_set k v d :
  keys (dict_set k v d) = if bool_decide (k ∈ keys d) then keys d else keys d ++ [k].
Proof.
  induction d as [|[k0 v0] d IH]; cbn.
  - rewrite bool_decide_eq_false_2; [reflexivity|]. intros Hk. inversion Hk.
  - destruct (String.eqb k0 k) eqn:E0; cbn.
    + apply String.eqb_eq in E0. subst k0.
      rewrite bool_decide_eq_true_2; [reflexivity|left].
    + apply String.eqb_neq in E0. unfold keys in IH. rewrite IH.
      destruct (bool_decide (k ∈ map fst d)) eqn:Eb.
      * apply bool_decide_eq_true in Eb.
        rewrite bool_decide_eq_true_2; [reflexivity|now right].
      * apply bool_decide_eq_false in Eb.
        rewrite bool_decide_eq_false_2; [reflexivity|].
        intros Hk. apply elem_of_cons in Hk as [Hk|Hk]; congruence.
Qed.

Lemma NoDup_keys_dict_set k v d : NoDup (keys d) -> NoDup (keys (dict_set k v d)).
Proof.
  intros Hnd. rewrite keys_dict_set. case_bool_decide as Hk; [exact Hnd|].
  apply NoDup_app. split; [exact Hnd|]. split.
  - intros x Hx Hx'. apply list_elem_of_singleton in Hx'. subst x. contradiction.
  - apply NoDup_singleton.
Qed.

Lemma dict_set_elem k v k' v' d :
  (k', v') ∈ dict_set k v d -> (k', v') = (k, v) \/ (k', v') ∈ d.
Proof.
  induction d as [|[k0 v0] d IH]; cbn.
  - intros Hin. apply list_elem_of_singleton in Hin. now left.
  - destruct (String.eqb k0 k) eqn:E0.
    + apply String.eqb_eq in E0. subst k0. intros Hin.
      apply elem_of_cons in Hin as [Hin|Hin]; [now left|right; now right].
    + intros Hin. apply elem_of_cons in Hin as [Hin|Hin].
      * right. rewrite Hin. left.
      * destruct (IH Hin) as [?|?]; [now left|right; now right].
Qed.

Lemma keys_assign_all (kvs : list (string * V)) d :
  keys (assign_all kvs d)
  = fold_left (fun acc k => if bool_decide (k ∈ acc) then acc else acc ++ [k])
      (map fst kvs) (keys d).
Proof.
  unfold assign_all.
  revert d. induction kvs as [|[k v] kvs IH]; intros d;
    cbn [fold_left map fst snd]; [reflexivity|].
  rewrite IH. now rewrite keys_dict_set.
Qed.

Lemma NoDup_keys_assign_all (kvs : list (string * V)) d :
  NoDup (keys d) -> NoDup (keys (assign_all kvs d)).
Proof.
  unfold assign_all.
  revert d. induction kvs as [|[k v] kvs IH]; intros d Hnd;
    cbn [fold_left fst snd]; [exact Hnd|].
  apply IH. now apply NoDup_keys_dict_set.
Qed.

Lemma assign_all_elem (kvs : list (string * V)) d kv :
  kv ∈ assign_all kvs d -> kv ∈ kvs \/ kv ∈ d.
Proof.
  unfold assign_all.
  revert d. induction kvs as [|[k v] kvs IH]; intros d;
    cbn [fold_left fst snd]; [now right|].
  intros Hin. destruct (IH _ Hin) as [Hin'|Hin']; [left; now right|].
  destruct kv as [k' v'].
  destruct (dict_set_elem _ _ _ _ _ Hin') as [->|?]; [left; left|now right].
Qed.

(** The value under [k] is the one assigned last. *)
Lemma dict_get_assign_all_last (pre post : list (string * V)) k v d :
  k ∉ map fst post ->
  dict_get k (assign_all (pre ++ (k, v) :: post) d) = Some v.
Proof.
  intros Hpost. unfold assign_all. rewrite fold_left_app. cbn [fold_left fst snd].
  set (d1 := dict_set k v (fold_left _ pre d)).
  assert (H1 : dict_get k d1 = Some v).
  { subst d1. rewrite dict_get_set. now rewrite String.eqb_refl. }
  clearbody d1. revert d1 H1.
  induction post as [|[k' v'] post IH]; intros d1 H1;
    cbn [fold_left fst snd]; [exact H1|].
  apply IH.
  - intros Hk. apply Hpost. cbn. now right.
  - rewrite dict_get_set. destruct (String.eqb k' k) eqn:E; [|exact H1].
    apply String.eqb_eq in E. subst k'. exfalso. apply Hpost. cbn. left.
Qed.

(** With distinct keys, the dictionary is the list of pairs itself. *)
Lemma assign_all_distinct (kvs d : list (string * V)) :
  NoDup (keys d ++ map fst kvs) -> assign_all kvs d = d ++ kvs.
Proof.
  unfold assign_all.
  revert d. induction kvs as [|[k v] kvs IH]; intros d Hnd;
    cbn [fold_left fst snd].
  - now rewrite app_nil_r.
  - assert (Hk : k ∉ keys d).
    { apply NoDup_app in Hnd as (_ & Hd & _). intros Hk. apply (Hd k Hk). cbn. left. }
    assert (Es : dict_set k v d = d ++ [(k, v)]).
    { clear -Hk. induction d as [|[k0 v0] d IHd]; cbn; [reflexivity|].
      destruct (String.eqb k0 k) eqn:E0.
      - apply String.eqb_eq in E0. subst k0. exfalso. apply Hk. cbn. left.
      - rewrite IHd; [reflexivity|]. intros Hk'. apply Hk. cbn. now right. }
    rewrite Es. rewrite IH.
    + now rewrite <- app_assoc.
    + unfold keys. rewrite map_app. cbn. rewrite <- app_assoc. exact Hnd.
Qed.
End DictLemmas.

Section FromSettings.
Context `{Env}.

Lemma entry_ok_app (hp ext : list instance) (kv : string * loc) :
  entry_ok hp kv = true -> entry_ok (hp ++ ext) kv = true.
Proof.
  unfold entry_ok. destruct (hp !! snd kv) as [o|] eqn:E; [|discriminate].
  now rewrite (lookup_app_l_Some _ _ _ _ E).
Qed.

Lemma arg_id_app (hp ext : list instance) (a : setting_arg) (k : string) :
  arg_id hp a = Some k -> arg_id (hp ++ ext) a = Some k.
Proof.
  destruct a as [l|c]; cbn; [|auto].
  destruct (hp !! l) as [o|] eqn:E; [|discriminate].
  now rewrite (lookup_app_l_Some _ _ _ _ E).
Qed.

Lemma contributes_app (w w1 w' : World) (ext1 ext : list instance) a kv :
  heap w1 = heap w ++ ext1 -> heap w' = heap w1 ++ ext ->
  contributes w w1 a kv -> contributes w w' a kv.
Proof.
  intros E1 E' (Hid & Hok & Hloc). unfold contributes. rewrite E'.
  split; [now apply arg_id_app|]. split; [now apply entry_ok_app|].
  destruct a as [l|c]; [exact Hloc|].
  destruct Hloc as (Hle & o & Ho & Hty). split; [exact Hle|].
  exists o. split; [|exact Hty]. now apply lookup_app_l_Some.
Qed.

Lemma contributes_later (w w1 w' : World) (ext1 : list instance) a kv :
  heap w1 = heap w ++ ext1 -> contributes w1 w' a kv -> contributes w w' a kv.
Proof.
  intros E1 (Hid & Hok & Hloc). split; [exact Hid|]. split; [exact Hok|].
  destruct a as [l|c]; [exact Hloc|].
  destruct Hloc as (Hle & Ho). split; [|exact Ho].
  rewrite E1, length_app in Hle. lia.
Qed.

Lemma dict_from_settings_step (a : setting_arg) (w : World) (k : string) (v : loc)
    (w1 w2 : World) :
  match a with
  | ArgClass c => getattr_id c
  | ArgInstance l => o <- deref l ;; getattr "id" attr_id o
  end w = (Return k, w1) ->
  match a with
  | ArgClass c => instantiate c
  | ArgInstance l => ret l
  end w1 = (Return v, w2) ->
  exists ext, heap w2 = heap w ++ ext /\ view w2 = view w /\ tasks w2 = tasks w
              /\ store w2 = store w /\ log w2 = log w
              /\ contributes w w2 a (k, v).
Proof.
  destruct a as [l|c]; intros Ek Ev.
  - unfold bind, deref in Ek. destruct (heap w !! l) as [o|] eqn:Ho; [|discriminate].
    unfold getattr in Ek. destruct (attr_id (type_of o)) as [k'|] eqn:Hid; [|discriminate].
    injection Ek as <- <-. injection Ev as <- <-.
    exists []. rewrite app_nil_r. repeat (split; [reflexivity|]).
    unfold contributes, entry_ok. cbn. rewrite Ho.
    split; [exact Hid|]. split; [|reflexivity]. now apply bool_decide_eq_true.
  - unfold getattr_id in Ek. destruct (attr_id c) as [k'|] eqn:Hid; [|discriminate].
    injection Ek as <- <-.
    destruct c; try discriminate; cbn in Ev; injection Ev as <- <-;
      eexists; (split; [reflexivity|]); repeat (split; [reflexivity|]);
      unfold contributes, entry_ok; cbn [fst snd heap set_heap arg_id];
      rewrite list_lookup_middle by reflexivity; cbn;
      (split; [exact Hid|]); (split; [now apply bool_decide_eq_true|]);
      (split; [lia|]); eexists; split; reflexivity.
Qed.

Lemma dict_from_settings_loop_spec (args : list setting_arg)
    (d0 d : list (string * loc)) (w w' : World) :
  dict_from_settings_loop args d0 w = (Return d, w') ->
  exists kvs ext,
    heap w' = heap w ++ ext /\ view w' = view w /\ tasks w' = tasks w /\
    store w' = store w /\ log w' = log w /\
    d = assign_all kvs d0 /\
    Forall2 (contributes w w') args kvs.
Proof.
  revert d0 w. induction args as [|a args IH]; intros d0 w E.
  - injection E as <- <-. exists [], []. rewrite app_nil_r.
    repeat (split; [reflexivity|]). constructor.
  - cbn [dict_from_settings_loop] in E. unfold bind at 1 in E.
    destruct (match a with
              | ArgClass c => getattr_id c
              | ArgInstance l => o <- deref l ;; getattr "id" attr_id o
              end w) as [[k|x] w1] eqn:Ek; [|discriminate].
    unfold bind at 1 in E.
    destruct (match a with
              | ArgClass c => instantiate c
              | ArgInstance l => ret l
              end w1) as [[v|x] w2] eqn:Ev; [|discriminate].
    destruct (dict_from_settings_step a w k v w1 w2 Ek Ev)
      as (ext1 & Hh1 & Hv1 & Ht1 & Hs1 & Hl1 & Hc1).
    destruct (IH _ _ E) as (kvs & ext & Hh & Hv & Ht & Hs & Hl & Hd & Hf).
    exists ((k, v) :: kvs), (ext1 ++ ext).
    split; [rewrite Hh, Hh1; now rewrite app_assoc|].
    split; [congruence|]. split; [congruence|]. split; [congruence|].
    split; [congruence|]. split; [exact Hd|].
    constructor.
    + eapply contributes_app; eauto.
    + eapply Forall2_impl; [exact Hf|]. intros a' kv'.
      apply contributes_later with (ext1 := ext1). exact Hh1.
Qed.
End FromSettings.

Section FromSettingsClaim.
Context `{Env}.

Lemma Forall2_lookup_split {A B} (R : A -> B -> Prop) (l : list A) (k : list B)
    (n : nat) (a : A) :
  Forall2 R l k -> l !! n = Some a ->
  exists b pre post, k = pre ++ b :: post /\ R a b /\
                     Forall2 R (drop (Datatypes.S n) l) post.
Proof.
  intros Hf Hn.
  destruct (Forall2_lookup_l _ _ _ _ _ Hf Hn) as (b & Hb & Rab).
  exists b, (take n k), (drop (Datatypes.S n) k).
  split; [symmetry; now apply take_drop_middle|]. split; [exact Rab|].
  now apply Forall2_drop.
Qed.

(** C8. When [dict_from_settings] returns a dictionary: its keys are
    distinct; under every key is a live setting whose [id] is that key;
    the keys are the ids of the given settings in insertion order (a
    repeated id keeps its first place), hence in the order given when the
    ids are distinct; an instance given under an id that does not come
    again later is the object stored under that id; and the select menu
    built over this dictionary lists the options in the order of its
    keys. *)
Theorem dict_from_settings_maps_ids_in_insertion_order :
  forall (args : list setting_arg) (w w' : World) (d : list (string * loc)),
    dict_from_settings args w = (Return d, w') ->
    NoDup (keys d)
    /\ (forall k l, dict_get k d = Some l ->
          exists o, heap w' !! l = Some o /\ attr_id (type_of o) = Some k)
    /\ (exists ids, Forall2 (fun a k => arg_id (heap w') a = Some k) args ids /\
                    keys d = insertion_order ids /\
                    (NoDup ids -> keys d = ids))
    /\ (forall n l k,
          args !! n = Some (ArgInstance l) ->
          arg_id (heap w') (ArgInstance l) = Some k ->
          (forall m a, n < m -> args !! m = Some a -> arg_id (heap w') a <> Some k) ->
          dict_get k d = Some l)
    /\ (forall w1 : World,
          heap w1 = heap w' -> settings (view w1) = d -> wf_selected w1 = true ->
          exists items options,
            children (view (snd (_build_items w1)))
            = items ++ [ItemSelect options (Some cb_select_parameter)] /\
            map value options = keys d).
Proof.
  intros args w w' d E.
  destruct (dict_from_settings_loop_spec args [] d w w' E)
    as (kvs & ext & Hh & _ & _ & _ & _ & Hd & Hf).
  assert (Hnd : NoDup (keys d)).
  { rewrite Hd. apply NoDup_keys_assign_all. constructor. }
  assert (Hok : forall kv, kv ∈ d -> entry_ok (heap w') kv = true).
  { intros kv Hin. rewrite Hd in Hin.
    apply assign_all_elem in Hin as [Hin|Hin]; [|inversion Hin].
    apply list_elem_of_lookup in Hin as [n Hn].
    destruct (Forall2_lookup_r _ _ _ _ _ Hf Hn) as (a & _ & (_ & Hc & _)).
    exact Hc. }
  split; [exact Hnd|]. split; [|split; [|split]].
  - intros k l Hl. specialize (Hok (k, l) (dict_get_elem _ _ _ Hl)).
    unfold entry_ok in Hok. cbn [fst snd] in Hok.
    destruct (heap w' !! l) as [o|]; [|discriminate].
    exists o. split; [reflexivity|]. now apply bool_decide_eq_true in Hok.
  - exists (map fst kvs). split; [|split].
    + apply Forall2_fmap_r. eapply Forall2_impl; [exact Hf|].
      intros a kv (Hid & _). exact Hid.
    + rewrite Hd. apply (keys_assign_all kvs []).
    + intros Hids. rewrite Hd. rewrite assign_all_distinct; [reflexivity|exact Hids].
  - intros n l k Hn Hid Hlater.
    destruct (Forall2_lookup_split _ _ _ _ _ Hf Hn)
      as ([k' l'] & pre & post & -> & (Hid' & _ & Hloc) & Hpost).
    cbn [fst snd] in Hid', Hloc. subst l'.
    assert (k' = k) as -> by congruence.
    rewrite Hd. apply dict_get_assign_all_last.
    intros Hk. apply list_elem_of_fmap in Hk as ([k2 l2] & Hk2 & Hin). cbn in Hk2. subst k2.
    apply list_elem_of_lookup in Hin as [m Hm].
    destruct (Forall2_lookup_r _ _ _ _ _ Hpost Hm) as (a & Ha & (Hida & _)).
    rewrite lookup_drop in Ha. cbn [fst] in Hida.
    apply (Hlater (Datatypes.S n + m) a); [lia|exact Ha|exact Hida].
  - intros w1 Hh1 Hs1 Hsel.
    assert (Hwf : wf w1 = true).
    { apply andb_true_iff. split; [|exact Hsel]. unfold wf_settings.
      rewrite Hs1, Hh1. apply andb_true_iff. split.
      - now apply bool_decide_eq_true.
      - apply forallb_forall. intros kv Hin. apply Hok. now apply list_elem_of_In. }
    destruct (_build_items_spec w1 Hwf) as (items & options & Eb & Hitems).
    exists items, options. rewrite Eb. split; [reflexivity|].
    destruct (options_values w1 items options Hitems) as [Hv _].
    now rewrite Hv, Hs1.
Qed.
End FromSettingsClaim.

(** ** Well-formed worlds are the reachable ones *)

Section WellFormedRuns.
Context `{Env}.

Lemma wf_ext (w w' : World) :
  heap w' = heap w -> settings (view w') = settings (view w) ->
  selected_id (view w') = selected_id (view w) -> wf w' = wf w.
Proof.
  intros Eh Es El. unfold wf, wf_settings, wf_selected. now rewrite Eh, Es, El.
Qed.

Lemma init_wf (i : Interaction) (ch : TextChannel) (w0 : World) :
  wf (snd (SettingsView__init__ i ch w0)) = true.
Proof.
  rewrite init_spec. unfold wf, wf_settings, wf_selected, entry_ok.
  cbn [snd view heap settings selected_id keys map fst forallb].
  rewrite list_lookup_middle by reflexivity. cbn.
  rewrite bool_decide_eq_true_2; [reflexivity|]. apply NoDup_singleton.
Qed.

Lemma refresh_wf (w : World) (i : Interaction) :
  wf (snd (refresh i w)) = wf w.
Proof.
  destruct (refresh_frame w i) as (Eh & _ & Es & El & _). now apply wf_ext.
Qed.

Lemma entry_ok_insert (hp : list instance) (l : loc) (o o' : instance)
    (kv : string * loc) :
  hp !! l = Some o -> type_of o' = type_of o ->
  entry_ok (<[l := o']> hp) kv = entry_ok hp kv.
Proof.
  intros Ho Hty. unfold entry_ok.
  destruct (decide (snd kv = l)) as [->|Hne].
  - rewrite list_lookup_insert_eq by (eapply lookup_lt_Some; eauto).
    now rewrite Ho, Hty.
  - now rewrite list_lookup_insert_ne by congruence.
Qed.

Lemma forallb_pointwise {A} (f g : A -> bool) (l : list A) :
  (forall a, f a = g a) -> forallb f l = forallb g l.
Proof.
  intros Hfg. induction l as [|a l IH]; cbn; [reflexivity|].
  now rewrite Hfg, IH.
Qed.

Lemma assign_wf (w : World) (l : loc) (o o' : instance) :
  heap w !! l = Some o -> type_of o' = type_of o ->
  wf (set_heap (fun h => <[l := o']> h) w) = wf w.
Proof.
  intros Ho Hty. unfold wf, wf_settings, wf_selected. cbn [heap view set_heap].
  f_equal. f_equal. apply forallb_pointwise. intros kv.
  now apply entry_ok_insert with (o := o).
Qed.

Lemma action_wf (w : World) (l : loc) (i : Interaction) :
  wf (snd (action l i w)) = wf w.
Proof.
  unfold action, bind at 1, deref.
  destruct (heap w !! l) as [o|] eqn:Ho; [|reflexivity].
  destruct o as [|counter|state|state channel]; [reflexivity| | |].
  - unfold ClickerSetting_action. step. rewrite refresh_wf.
    apply (assign_wf w l _ (IClicker (counter + 1)) Ho). reflexivity.
  - unfold ToggleSetting_action. step. rewrite refresh_wf.
    apply (assign_wf w l _ (IToggle (negb state)) Ho). reflexivity.
  - unfold FixTweetSetting_action. step. step. rewrite refresh_wf.
    etransitivity;
      [|apply (assign_wf w l _ (IFixTweet (negb state) channel) Ho); reflexivity].
    apply wf_ext; reflexivity.
Qed.

Lemma run_task_wf (w : World) (h : nat) (r : option exn) :
  wf (snd (run_task h r w)) = wf w.
Proof.
  unfold run_task, _message_delete_after_task. step.
  destruct (tasks w !! h) as [tk|]; [|reflexivity].
  assert (Hbody : forall sl : M World unit,
            (forall w0, heap (snd (sl w0)) = heap w0
                        /\ view (snd (sl w0)) = view w0) ->
            let w1 := snd (_message_delete_after sl
                       (emit (DeleteOriginalResponse (task_interaction tk)) ;;;
                        raise_if r) w) in
            heap w1 = heap w /\ view w1 = view w).
  { intros sl Hsl. cbn zeta. unfold _message_delete_after, try_except, bind.
    destruct (Hsl w) as [Ht Hv].
    destruct (sl w) as [[[]|x] w0]; cbn [snd] in *.
    - unfold emit, modify, raise_if.
      destruct r as [x|]; cbn [raise ret bind snd fst];
        [destruct (caught_by [HTTPException; CancelledError] x)|]; cbn; auto.
    - destruct (caught_by [HTTPException; CancelledError] x); cbn; auto. }
  destruct (task_state tk); [| |reflexivity].
  - specialize (Hbody (ret tt) (fun w0 => conj eq_refl eq_refl)). cbn zeta in Hbody.
    destruct (_message_delete_after _ _ w) as [r1 w1]. cbn [snd] in *.
    destruct Hbody as [Eh Ev]. apply wf_ext; cbn [heap view set_tasks]; congruence.
  - specialize (Hbody (raise (Exn CancelledError "")) (fun w0 => conj eq_refl eq_refl)).
    cbn zeta in Hbody.
    destruct (_message_delete_after _ _ w) as [r1 w1]. cbn [snd] in *.
    destruct Hbody as [Eh Ev]. apply wf_ext; cbn [heap view set_tasks]; congruence.
Qed.

(** Every input the framework can deliver keeps the world well formed. *)
Lemma handle_wf (w : World) (inp : Input) :
  wf w = true -> offered w inp = true -> wf (snd (handle inp w)) = true.
Proof.
  intros Hwf Hoff. destruct inp as [i|i values|i [l|]|h r]; cbn [handle].
  - unfold send. now rewrite refresh_wf.
  - destruct values as [|k rest]; [exact Hwf|].
    unfold select_parameter. step. step. rewrite refresh_wf.
    apply andb_true_iff in Hwf as [Hset _].
    apply andb_true_iff. split; [exact Hset|exact Hoff].
  - now rewrite action_wf.
  - exact Hwf.
  - now rewrite run_task_wf.
Qed.

Lemma run_wf (inps : list Input) (w : World) :
  wf w = true -> all_offered inps w = true -> wf (run inps w) = true.
Proof.
  revert w. induction inps as [|inp inps IH]; intros w Hwf Hall; cbn [run].
  - exact Hwf.
  - cbn [all_offered] in Hall. apply andb_true_iff in Hall as [Hoff Hall].
    apply IH; [now apply handle_wf|exact Hall].
Qed.

(** Hence the worlds the theorems above speak of are all the worlds a
    session goes through, from the construction of the view on. *)
Lemma session_wf (i : Interaction) (ch : TextChannel) (w0 : World)
    (inps : list Input) :
  all_offered inps (snd (SettingsView__init__ i ch w0)) = true ->
  wf (run inps (snd (SettingsView__init__ i ch w0))) = true.
Proof. intros Hall. apply run_wf; [apply init_wf|exact Hall]. Qed.
End WellFormedRuns.

(** ** The properties at work on the demo panel *)

Section Witnesses.
Import Demo.
#[local] Existing Instance demo_env.

(** On the demo panel with "fixtweet" chosen: a click reschedules the
    clean-up (task 1 is cancelled, task 2 takes over), and runs that mix
    refreshes, activations and expiring tasks keep at most one pending. *)
Lemma refresh_single_flight_witness :
  (timeout_task (view chosen) = Some 1
   /\ fst (refresh click chosen) = Return tt
   /\ timeout_task (view (snd (refresh click chosen))) = Some 2
   /\ exists tk', tasks (snd (refresh click chosen)) !! 1 = Some tk'
                  /\ task_state tk' <> Scheduled)
  /\ pending (run [Send command; Select click ["fixtweet"]; TaskRuns 0 None;
                   Press click (cb_action 0);
                   TaskRuns 2 (Some (Exn NotFound "Unknown Message"))] blank) <= 1
  /\ pending (run [Send command; Press click (cb_action 0); Send command]
                (snd (SettingsView__init__ command general blank))) <= 1.
Proof.
  destruct (refresh_cancels_then_reschedules_single_flight (H := demo_env))
    as (P1 & P2 & P3).
  split; [|split].
  - split; [reflexivity|]. split; [reflexivity|].
    destruct (P1 chosen click) as [(x & Ex & _)|(_ & _ & Et & _ & Hold)].
    + discriminate Ex.
    + split; [exact Et|].
      apply (Hold 1 {| task_interaction := click; task_state := Scheduled |});
        reflexivity.
  - apply P2. intros h tk Hl. cbn in Hl. discriminate Hl.
  - apply P3. reflexivity.
Defined.

Lemma select_parameter_witness :
  wf_settings fresh = true
  /\ selected_id (view (snd (select_parameter click ["fixtweet"] fresh)))
     = Some "fixtweet"
  /\ exists e, embed (view (snd (select_parameter click ["fixtweet"] fresh)))
               = Some e.
Proof.
  split; [reflexivity|].
  destruct (select_parameter_shows_selected_setting (H := demo_env)
              fresh click "fixtweet" [] eq_refl)
    as (l & o & items & options & e & _ & _ & _ & _ & A & B & _).
  - cbn. left.
  - split; [exact A|]. exists e. exact B.
Defined.

Lemma refresh_response_witness :
  wf chosen = true
  /\ exists ev,
       List.filter is_response (since chosen (snd (refresh click chosen))) = [ev]
       /\ ev = EditMessage click
                 (children (view (snd (refresh click chosen))))
                 (embed (view (snd (refresh click chosen)))).
Proof.
  split; [reflexivity|].
  apply (refresh_edits_or_sends_exactly_once (H := demo_env) chosen click).
  reflexivity.
Defined.

Lemma build_embed_witness :
  wf chosen = true
  /\ fst (build chosen) = Return tt
  /\ exists e, embed (view (snd (build chosen))) = Some e.
Proof.
  split; [reflexivity|].
  destruct (build_sets_embed_of_selected_or_overview (H := demo_env) chosen)
    as (e & A & B & _).
  - reflexivity.
  - split; [exact A|]. exists e. exact B.
Defined.

Lemma build_items_witness :
  wf clicking = true
  /\ exists items options,
       _build_items clicking
       = (Return tt,
          set_view (with_children
                      (items ++ [ItemSelect options (Some cb_select_parameter)]))
            clicking)
       /\ map value options = ["clicker"; "toggle"; "fixtweet"].
Proof.
  split; [vm_compute; reflexivity|].
  destruct (build_items_controls_of_selected_only (H := demo_env) clicking)
    as (items & options & A & _ & B & _).
  - vm_compute. reflexivity.
  - exists items, options. split; [exact A|exact B].
Defined.

Lemma dict_from_settings_witness :
  fst (dict_from_settings
         [ArgClass ClickerSetting; ArgClass ToggleSetting; ArgInstance 0] fresh)
    = Return [("clicker", 1); ("toggle", 2); ("fixtweet", 0)]
  /\ NoDup (keys [("clicker", 1); ("toggle", 2); ("fixtweet", 0)])
  /\ dict_get "fixtweet" [("clicker", 1); ("toggle", 2); ("fixtweet", 0)]
     = Some 0.
Proof.
  split; [reflexivity|].
  destruct (dict_from_settings_maps_ids_in_insertion_order (H := demo_env)
              [ArgClass ClickerSetting; ArgClass ToggleSetting; ArgInstance 0]
              fresh
              (snd (dict_from_settings
                      [ArgClass ClickerSetting; ArgClass ToggleSetting;
                       ArgInstance 0] fresh))
              [("clicker", 1); ("toggle", 2); ("fixtweet", 0)] eq_refl)
    as (A & _ & _ & B & _).
  split; [exact A|].
  apply (B 2 0 "fixtweet"); [reflexivity|reflexivity|].
  intros m a Hm Ha. destruct m as [|[|[|m]]]; try lia; discriminate Ha.
Defined.
End Witnesses.


(** * Further properties of the module *)

(** ** Classes and the settings dictionary *)

(** X1. Looking a class up by id inverts the class attribute [id]:
    [BaseSetting.cls_from_id(k)] is the class [c] exactly when [c] is a
    direct subclass whose [id] is [k] (the ids of the subclasses are
    distinct).  Called on a subclass, which has no subclass of its own,
    [cls_from_id] finds nothing, not even the class itself. *)
Theorem cls_from_id_inverts_id :
  forall (S : Type) (s : S) (k : string) (c : cls),
    (cls_from_id BaseSetting k s = (Return (Some c), s)
     <-> c ∈ __subclasses__ BaseSetting /\ attr_id c = Some k)
    /\ (c <> BaseSetting -> cls_from_id c k s = (Return None, s)).
Proof.
  intros S s k c. split; [split|].
  - intros E.
    destruct (cls_from_id_loop_first (__subclasses__ BaseSetting) k s)
      as (r & Er & Hr).
    { repeat constructor; cbn; eauto. }
    unfold cls_from_id in E. assert (r = Some c) as -> by congruence.
    destruct Hr as (n & Hn & Hid & _). split; [|exact Hid].
    apply list_elem_of_lookup. eauto.
  - intros [Hc Hid].
    destruct c; cbn in Hid; [discriminate Hid| | |];
      injection Hid as <-; reflexivity.
  - intros Hc. destruct c; [contradiction| | |]; reflexivity.
Qed.

Section FromSettingsMore.
Context `{Env}.

Lemma set_heap_nil (w : World) : set_heap (fun h => h ++ []) w = w.
Proof. destruct w. unfold set_heap. cbn. now rewrite app_nil_r. Qed.

Lemma set_heap_app (w : World) (a b : list instance) :
  set_heap (fun h => h ++ b) (set_heap (fun h => h ++ a) w)
  = set_heap (fun h => h ++ (a ++ b)) w.
Proof. unfold set_heap. cbn. now rewrite app_assoc. Qed.

Lemma arg_error_None_app (hp ext : list instance) (a : setting_arg) :
  arg_error hp a = None -> arg_error (hp ++ ext) a = None.
Proof.
  destruct a as [l|c]; cbn; [|auto].
  destruct (hp !! l) as [o|] eqn:E; [|discriminate].
  now rewrite (lookup_app_l_Some _ _ _ _ E).
Qed.

Lemma arg_error_Some_app (hp ext : list instance) (a : setting_arg) (c : exn_class) :
  arg_error hp a = Some c -> c <> SystemError -> arg_error (hp ++ ext) a = Some c.
Proof.
  destruct a as [l|c0]; cbn; [|auto].
  destruct (hp !! l) as [o|] eqn:E.
  - now rewrite (lookup_app_l_Some _ _ _ _ E).
  - intros [= <-] Hc. contradiction.
Qed.

(** One sound element: its key, its value, and the object it creates. *)
Lemma dict_from_settings_element (a : setting_arg) (w : World) :
  arg_error (heap w) a = None ->
  exists k v,
    match a with
    | ArgClass c => getattr_id c
    | ArgInstance l => o <- deref l ;; getattr "id" attr_id o
    end w = (Return k, w)
    /\ match a with
       | ArgClass c => instantiate c
       | ArgInstance l => ret l
       end w
       = (Return v, set_heap (fun h => h ++ from_option (fun o => [o]) [] (created a)) w).
Proof.
  destruct a as [l|c]; cbn [arg_error created from_option].
  - destruct (heap w !! l) as [o|] eqn:Ho; [|discriminate].
    intros Herr. unfold bind, deref. rewrite Ho.
    destruct o; [discriminate| | |]; eexists _, l;
      (split; [reflexivity|]); now rewrite set_heap_nil.
  - destruct c; try discriminate; intros _; eexists _, _; split; reflexivity.
Qed.

Lemma omap_created_cons (a : setting_arg) (args : list setting_arg) :
  omap created (a :: args)
  = from_option (fun o => [o]) [] (created a) ++ omap created args.
Proof. cbn. destruct (created a); reflexivity. Qed.

Lemma dict_from_settings_loop_ok (args : list setting_arg)
    (d0 : list (string * loc)) (w : World) :
  Forall (fun a => arg_error (heap w) a = None) args ->
  exists d, dict_from_settings_loop args d0 w
            = (Return d, set_heap (fun h => h ++ omap created args) w).
Proof.
  revert d0 w. induction args as [|a args IH]; intros d0 w Hok.
  - exists d0. cbn. now rewrite set_heap_nil.
  - apply Forall_cons in Hok as [Ha Hrest].
    destruct (dict_from_settings_element a w Ha) as (k & v & Ek & Ev).
    cbn [dict_from_settings_loop].
    erewrite bind_eq; [|exact Ek]. erewrite bind_eq; [|exact Ev].
    destruct (IH (dict_set k v d0)
                (set_heap (fun h => h ++ from_option (fun o => [o]) [] (created a)) w))
      as (d & Ed).
    { eapply Forall_impl; [exact Hrest|]. intros a'. apply arg_error_None_app. }
    exists d. rewrite Ed, set_heap_app, omap_created_cons. reflexivity.
Qed.

Lemma dict_from_settings_loop_bad (pre post : list setting_arg) (a : setting_arg)
    (c : exn_class) (d0 : list (string * loc)) (w : World) :
  Forall (fun a => arg_error (heap w) a = None) pre ->
  arg_error (heap w) a = Some c -> c <> SystemError ->
  exists msg, dict_from_settings_loop (pre ++ a :: post) d0 w
              = (Raise (Exn c msg), set_heap (fun h => h ++ omap created pre) w).
Proof.
  revert d0 w. induction pre as [|a0 pre IH]; intros d0 w Hok Ha Hc.
  - cbn [app omap]. rewrite set_heap_nil. cbn [dict_from_settings_loop].
    destruct a as [l|c0]; cbn [arg_error] in Ha.
    + destruct (heap w !! l) as [o|] eqn:Ho; [|congruence].
      destruct o; try discriminate. injection Ha as <-.
      eexists. unfold bind, deref. rewrite Ho. reflexivity.
    + destruct c0; try discriminate; injection Ha as <-; eexists; reflexivity.
  - apply Forall_cons in Hok as [Ha0 Hrest].
    destruct (dict_from_settings_element a0 w Ha0) as (k & v & Ek & Ev).
    cbn [app dict_from_settings_loop].
    erewrite bind_eq; [|exact Ek]. erewrite bind_eq; [|exact Ev].
    destruct (IH (dict_set k v d0)
                (set_heap (fun h => h ++ from_option (fun o => [o]) [] (created a0)) w))
      as (msg & Ed).
    { eapply Forall_impl; [exact Hrest|]. intros a'. apply arg_error_None_app. }
    { now apply arg_error_Some_app. }
    { exact Hc. }
    exists msg. rewrite Ed, set_heap_app, omap_created_cons. reflexivity.
Qed.

(** X2. [dict_from_settings] raises at the first element that has no
    [id] ([AttributeError]: the class [BaseSetting] or a bare instance of
    it) or that is a class needing a constructor argument ([TypeError]:
    [FixTweetSetting]), whatever follows it; the instances created for the
    elements before it stay allocated. *)
Theorem dict_from_settings_raises_at_first_bad_element :
  forall (pre post : list setting_arg) (a : setting_arg) (c : exn_class)
         (w : World),
    Forall (fun a => arg_error (heap w) a = None) pre ->
    arg_error (heap w) a = Some c -> c <> SystemError ->
    (c = AttributeError \/ c = TypeError) /\
    exists msg, dict_from_settings (pre ++ a :: post) w
                = (Raise (Exn c msg),
                   set_heap (fun h => h ++ omap created pre) w).
Proof.
  intros pre post a c w Hok Ha Hc. split.
  - destruct a as [l|c0]; cbn in Ha.
    + destruct (heap w !! l) as [[]|]; try discriminate;
        injection Ha as <-; auto. contradiction.
    + destruct c0; try discriminate; injection Ha as <-; auto.
  - now apply dict_from_settings_loop_bad.
Qed.

(** X3. When every element has an id and, if a class, can be called
    without argument, [dict_from_settings] returns, and all it does to the
    world is to create one object per class element, in order and in its
    initial state ([ClickerSetting] with counter 0, [ToggleSetting] off);
    instances passed in are not copied. *)
Theorem dict_from_settings_creates_default_instances :
  forall (args : list setting_arg) (w : World),
    Forall (fun a => arg_error (heap w) a = None) args ->
    exists d, dict_from_settings args w
              = (Return d, set_heap (fun h => h ++ omap created args) w).
Proof. intros args w Hok. now apply dict_from_settings_loop_ok. Qed.
End FromSettingsMore.

(** ** More on rebuilding *)

Section RebuildMore.
Context `{Env}.

Lemma dict_get_None {V} (k : string) (d : list (string * V)) :
  k ∉ keys d -> dict_get k d = None.
Proof.
  induction d as [|[k' v'] d IH]; cbn; [reflexivity|]. intros Hk.
  destruct (String.eqb k' k) eqn:E.
  - apply String.eqb_eq in E. subst k'. exfalso. apply Hk. left.
  - apply IH. intros Hk'. apply Hk. now right.
Qed.

Lemma build_unknown (w : World) (k : string) :
  selected_id (view w) = Some k -> dict_get k (settings (view w)) = None ->
  build w = (Raise (Exn KeyError k), set_view (with_children []) w).
Proof.
  intros Es Hk. unfold build, _build_items.
  unfold bind at 1. unfold bind at 1. unfold clear_items, modify.
  unfold bind at 1. unfold self at 1. cbn [view set_view selected_id settings with_children].
  rewrite Es. unfold bind at 1. unfold bind at 1. unfold dict_getitem at 1.
  rewrite Hk. reflexivity.
Qed.

Lemma refresh_unknown (w : World) (i : Interaction) (k : string) :
  selected_id (view w) = Some k -> dict_get k (settings (view w)) = None ->
  refresh i w
  = (Raise (Exn KeyError k),
     {| heap := heap w; view := with_children [] (view w); tasks := tasks w;
        store := store w; log := log w ++ [CallRefresh i] |}).
Proof.
  intros Es Hk. unfold refresh. step.
  unfold bind at 1. erewrite build_unknown; [reflexivity|exact Es|exact Hk].
Qed.

(** X5. Selecting an id that is not a key of the settings mapping
    raises [KeyError] from the rebuild: no response call is made and the
    tasks are untouched, but the unknown id stays selected and the items
    are cleared, so every later [refresh] raises the same [KeyError]
    until a known id is selected. *)
Theorem select_parameter_unknown_id_raises_KeyError :
  forall (w : World) (i : Interaction) (k : string) (rest : list string),
    k ∉ keys (settings (view w)) ->
    let stuck :=
      {| heap := heap w;
         view := with_children [] (with_selected_id (Some k) (view w));
         tasks := tasks w; store := store w;
         log := log w ++ [CallRefresh i] |} in
    select_parameter i (k :: rest) w = (Raise (Exn KeyError k), stuck)
    /\ forall i', fst (refresh i' stuck) = Raise (Exn KeyError k)
                  /\ tasks (snd (refresh i' stuck)) = tasks w
                  /\ since stuck (snd (refresh i' stuck)) = [CallRefresh i'].
Proof.
  intros w i k rest Hk stuck. apply dict_get_None in Hk. split.
  - unfold select_parameter. step. step.
    rewrite (refresh_unknown _ i k); [reflexivity|reflexivity|exact Hk].
  - intros i'. rewrite (refresh_unknown stuck i' k); [|reflexivity|exact Hk].
    cbn [fst snd tasks]. repeat split. unfold since. cbn [log snd].
    now rewrite drop_app_length.
Qed.

Lemma Forall2_functional {A B} (R : A -> B -> Prop) (l : list A) (k k' : list B) :
  (forall a b b', R a b -> R a b' -> b = b') ->
  Forall2 R l k -> Forall2 R l k' -> k = k'.
Proof.
  intros HR Hk. revert k'. induction Hk as [|a b l k Rab _ IH]; intros k' Hk'.
  - now inversion Hk'.
  - inversion Hk' as [|a' b' l' k'' Rab' Hk'']; subst. f_equal; eauto.
Qed.

Lemma items_for_unique (w : World) (items items' : list Item)
    (options options' : list SelectOption) :
  items_for w items options -> items_for w items' options' ->
  items = items' /\ options = options'.
Proof.
  intros [Hi Ho] [Hi' Ho']. split.
  - destruct (selected_id (view w)) as [k|]; [|congruence].
    destruct Hi as (l & o & Hl & Hh & _ & Hb).
    destruct Hi' as (l' & o' & Hl' & Hh' & _ & Hb').
    assert (l' = l) as -> by congruence. assert (o' = o) as -> by congruence.
    specialize (Hb unit tt). specialize (Hb' unit tt). congruence.
  - eapply Forall2_functional; [|exact Ho|exact Ho'].
    intros k b b' (l & o & Hl & Hh & _ & Hb) (l' & o' & Hl' & Hh' & _ & Hb').
    assert (l' = l) as -> by congruence. assert (o' = o) as -> by congruence.
    specialize (Hb unit tt). specialize (Hb' unit tt). congruence.
Qed.

Lemma embed_for_unique (w : World) (e e' : Embed) :
  embed_for w e -> embed_for w e' -> e = e'.
Proof.
  unfold embed_for. destruct (selected_id (view w)) as [k|]; [|congruence].
  intros (l & o & Hl & Hh & Hb) (l' & o' & Hl' & Hh' & Hb').
  assert (l' = l) as -> by congruence. assert (o' = o) as -> by congruence.
  specialize (Hb unit tt). specialize (Hb' unit tt). congruence.
Qed.

(** X6. A rebuild does not depend on the items and the embed the view
    had before; in particular building twice is building once, so items
    never pile up over refreshes. *)
Theorem build_forgets_previous_render :
  forall (w : World) (c : list Item) (e : option Embed),
    wf w = true ->
    build (set_view (fun v => with_embed e (with_children c v)) w) = build w
    /\ build (snd (build w)) = build w.
Proof.
  intros w c e Hwf.
  assert (Hany : forall c e,
            build (set_view (fun v => with_embed e (with_children c v)) w)
            = build w).
  { clear c e. intros c e.
    set (w1 := set_view (fun v => with_embed e (with_children c v)) w).
    destruct (build_spec w Hwf) as (items & options & e0 & Eb & Hi & He).
    destruct (build_spec w1 Hwf) as (items1 & options1 & e1 & Eb1 & Hi1 & He1).
    destruct (items_for_unique w items items1 options options1 Hi Hi1) as [-> ->].
    rewrite (embed_for_unique w e0 e1 He He1) in Eb.
    rewrite Eb, Eb1. reflexivity. }
  split; [apply Hany|].
  destruct (build_spec w Hwf) as (items & options & e0 & Eb & _).
  rewrite Eb at 1. cbn [snd]. apply Hany.
Qed.

Lemma build_action_button (l : loc) (o : instance) (k : string) :
  attr_id (type_of o) = Some k ->
  exists b, custom_id b = k /\
    forall (S : Type) (s : S),
      build_action l o s = (Return [ItemButton b (Some (cb_action l))], s).
Proof.
  destruct o; cbn; intros [= <-]; eexists; (split; [|intros; reflexivity]);
    reflexivity.
Qed.

(** X7. After [build] the view has one select menu, last, and before it
    exactly one button when a setting is selected: the button's
    [custom_id] is the selected id and its callback the [action] of the
    setting stored under that id. *)
Theorem build_leaves_at_most_one_button_and_one_menu :
  forall w : World, wf w = true ->
    match selected_id (view w) with
    | Some k =>
        exists l b options,
          dict_get k (settings (view w)) = Some l /\
          custom_id b = k /\
          children (view (snd (build w)))
          = [ItemButton b (Some (cb_action l));
             ItemSelect options (Some cb_select_parameter)]
    | None =>
        exists options,
          children (view (snd (build w)))
          = [ItemSelect options (Some cb_select_parameter)]
    end.
Proof.
  intros w Hwf.
  destruct (build_spec w Hwf) as (items & options & e & Eb & [Hi _] & _).
  rewrite Eb. cbn [snd view set_view children rebuilt with_embed with_children].
  destruct (selected_id (view w)) as [k|].
  - destruct Hi as (l & o & Hl & Ho & Hid & Hact).
    destruct (build_action_button l o k Hid) as (b & Hb & Hbuild).
    specialize (Hact unit tt). rewrite Hbuild in Hact. injection Hact as <-.
    exists l, b, options. auto.
  - subst items. exists options. reflexivity.
Qed.

Lemma build_embed_footer (o : instance) (b : Bot) (k : string) :
  attr_id (type_of o) = Some k ->
  exists e0, footer e0 = None /\
    forall (S : Type) (s : S),
      build_embed o b s = (Return (set_embed_footer b e0), s).
Proof.
  destruct o; cbn; intros [= <-]; eexists; (split; [|intros; reflexivity]);
    reflexivity.
Qed.

(** X17. Every embed [build] puts on the view, the overview or a
    setting's, went through [set_embed_footer] with the view's bot. *)
Theorem build_embed_always_gets_the_footer :
  forall w : World, wf w = true ->
    exists e0, footer e0 = None /\
      embed (view (snd (build w)))
      = Some (set_embed_footer (bot (view w)) e0).
Proof.
  intros w Hwf.
  destruct (build_spec w Hwf) as (items & options & e & Eb & _ & He).
  rewrite Eb. cbn [snd view set_view embed rebuilt with_embed].
  unfold embed_for in He. pose proof Hwf as Hwf'.
  apply andb_true_iff in Hwf' as [Hset Hsel]. unfold wf_selected in Hsel.
  destruct (selected_id (view w)) as [k|].
  - destruct He as (l & o & Hl & Ho & Hb).
    destruct (wf_settings_entry w k l Hset (dict_get_elem _ _ _ Hl))
      as (o' & Ho' & Hid).
    assert (o' = o) as -> by congruence.
    destruct (build_embed_footer o (bot (view w)) k Hid) as (e0 & Hf & He0).
    specialize (Hb unit tt). rewrite He0 in Hb. injection Hb as <-.
    exists e0. auto.
  - subst e. eexists. split; [|reflexivity]. reflexivity.
Qed.
End RebuildMore.

(** ** The first panel *)

Section PanelMore.
Context `{Env}.

(** X4. The first [send] on a freshly constructed view answers the
    command with an ephemeral message carrying the overview embed and one
    select menu, whose single option is the FixTweet setting of the
    interaction's channel, not marked as default; there is no button; one
    countdown is started. *)
Theorem first_send_shows_the_overview :
  forall (i : Interaction) (ch : TextChannel) (w0 : World) (i1 : Interaction),
    message i1 = None -> response_error i1 = None ->
    let fixtweet :=
      IFixTweet (is_fixtweet_enabled (guild_id (interaction_channel i))
                   (channel_id (interaction_channel i)) (store w0))
        (interaction_channel i) in
    let menu :=
      ItemSelect [{| opt_label := t "settings.fixtweet.name" [];
                     value := "fixtweet";
                     opt_description := t "settings.fixtweet.description" [];
                     opt_emoji := fixtweet_emoji;
                     opt_default := false |}]
        (Some cb_select_parameter) in
    let overview :=
      set_embed_footer (client i)
        {| title := t "settings.title" [];
           description := t "settings.description" [];
           footer := None |} in
    send i1 (snd (SettingsView__init__ i ch w0))
    = (Return tt,
       {| heap := heap w0 ++ [fixtweet];
          view := {| children := [menu]; selected := None; bot := client i;
                     channel := ch; embed := Some overview;
                     settings := [("fixtweet", length (heap w0))];
                     selected_id := None;
                     timeout_task := Some (length (tasks w0)) |};
          tasks := tasks w0
                   ++ [{| task_interaction := i1; task_state := Scheduled |}];
          store := store w0;
          log := log w0
                 ++ [CallRefresh i1; SendMessage i1 [menu] (Some overview) true;
                     CreateTask (length (tasks w0))] |}).
Proof.
  intros i ch w0 i1 Hm Hr fixtweet menu overview.
  pose proof (init_wf i ch w0) as Hwf. rewrite init_spec in Hwf |- *.
  cbn [snd] in Hwf |- *.
  match type of Hwf with wf ?x = true => set (w := x) in * end.
  destruct (refresh_spec w i1 Hwf) as (items & options & e & [Hi Ho] & He & Er).
  cbn zeta in Er. unfold send. rewrite Er, Hr. clear Er.
  unfold embed_for in He. cbn [w view selected_id bot] in Hi, He. subst items e.
  cbn [w view settings keys map fst selected_id heap] in Ho.
  inversion Ho as [|k op ks ops (l & o & Hl & Hh & _ & Hb) Hrest]; subst.
  inversion Hrest; subst. clear Ho Hrest.
  cbn in Hl. injection Hl as <-.
  rewrite list_lookup_middle in Hh by reflexivity. injection Hh as <-.
  specialize (Hb unit tt). cbn in Hb. injection Hb as <-.
  unfold response_event, rescheduled, reschedule_events. rewrite Hm.
  cbn. rewrite <- app_assoc. reflexivity.
Qed.
End PanelMore.

(** ** Activations over a session *)

Section ActivationMore.
Context `{Env}.

(** [refresh] leaves the setting objects, the store and everything of
    the view but its items, embed and task handle as they are. *)
Lemma refresh_keeps (w : World) (i : Interaction) :
  let w' := snd (refresh i w) in
  heap w' = heap w /\ store w' = store w /\
  settings (view w') = settings (view w) /\
  selected_id (view w') = selected_id (view w) /\
  bot (view w') = bot (view w) /\ channel (view w') = channel (view w).
Proof.
  destruct (refresh_cases w i) as (c & e & Hc). cbn zeta in Hc |- *.
  destruct Hc as [[x ->]|[[x ->]| ->]]; cbn; repeat split; reflexivity.
Qed.

Lemma run_task_keeps (w : World) (h : nat) (r : option exn) :
  let w' := snd (run_task h r w) in
  heap w' = heap w /\ store w' = store w /\ view w' = view w.
Proof.
  cbn zeta. unfold run_task, _message_delete_after_task. step.
  destruct (tasks w !! h) as [tk|]; [|auto].
  assert (Hbody : forall sl : M World unit,
            (forall w0, heap (snd (sl w0)) = heap w0
                        /\ store (snd (sl w0)) = store w0
                        /\ view (snd (sl w0)) = view w0) ->
            let w1 := snd (_message_delete_after sl
                       (emit (DeleteOriginalResponse (task_interaction tk)) ;;;
                        raise_if r) w) in
            heap w1 = heap w /\ store w1 = store w /\ view w1 = view w).
  { intros sl Hsl. cbn zeta. unfold _message_delete_after, try_except, bind.
    destruct (Hsl w) as (Hh & Hs & Hv).
    destruct (sl w) as [[[]|x] w0]; cbn [snd] in *.
    - unfold emit, modify, raise_if.
      destruct r as [x|]; cbn [raise ret bind snd fst];
        [destruct (caught_by [HTTPException; CancelledError] x)|]; cbn; auto.
    - destruct (caught_by [HTTPException; CancelledError] x); cbn; auto. }
  destruct (task_state tk); [| |auto].
  - specialize (Hbody (ret tt) (fun w0 => conj eq_refl (conj eq_refl eq_refl))).
    cbn zeta in Hbody.
    destruct (_message_delete_after _ _ w) as [r1 w1]. cbn [snd] in *. exact Hbody.
  - specialize (Hbody (raise (Exn CancelledError ""))
                  (fun w0 => conj eq_refl (conj eq_refl eq_refl))).
    cbn zeta in Hbody.
    destruct (_message_delete_after _ _ w) as [r1 w1]. cbn [snd] in *. exact Hbody.
Qed.

(** An activation is the update of the object followed by [refresh]. *)
Lemma action_unfold (w : World) (l : loc) (o : instance) (i : Interaction) :
  heap w !! l = Some o -> type_of o <> BaseSetting ->
  action l i w
  = refresh i
      {| heap := <[l := activated o]> (heap w); view := view w; tasks := tasks w;
         store := store_after (Press i (cb_action l)) (heap w) (store w);
         log := log w |}.
Proof.
  intros Ho Hty. unfold action. erewrite bind_eq; [|apply deref_Some; exact Ho].
  unfold store_after. rewrite Ho.
  destruct o as [|counter|state|state channel];
    [exfalso; apply Hty; reflexivity| | |].
  - unfold ClickerSetting_action. step. reflexivity.
  - unfold ToggleSetting_action. step. reflexivity.
  - unfold FixTweetSetting_action. step. step. reflexivity.
Qed.

Lemma handle_keeps (w : World) (inp : Input) :
  let w' := snd (handle inp w) in
  heap w' = heap_after inp (heap w) /\
  store w' = store_after inp (heap w) (store w) /\
  settings (view w') = settings (view w) /\
  bot (view w') = bot (view w) /\ channel (view w') = channel (view w).
Proof.
  cbn zeta. destruct inp as [i|i values|i [l|]|h r]; cbn [handle heap_after store_after].
  - destruct (refresh_keeps w i) as (? & ? & ? & _ & ? & ?). auto.
  - unfold select_parameter. destruct values as [|k rest]; [auto|].
    step. step.
    match goal with |- context [refresh i ?w1] =>
      destruct (refresh_keeps w1 i) as (Hh & Hs & Hd & _ & Hb & Hc) end.
    cbn zeta in *. rewrite Hh, Hs, Hd, Hb, Hc. auto.
  - destruct (heap w !! l) as [o|] eqn:Ho.
    + destruct (decide (type_of o = BaseSetting)) as [Hty|Hty].
      * destruct o; try discriminate Hty.
        unfold action. erewrite bind_eq; [|apply deref_Some; exact Ho].
        cbn. rewrite list_insert_id by exact Ho. auto.
      * rewrite (action_unfold w l o i Ho Hty).
        match goal with |- context [refresh i ?w1] =>
          destruct (refresh_keeps w1 i) as (Hh & Hs & Hd & _ & Hb & Hc) end.
        cbn zeta in *. rewrite Hh, Hs, Hd, Hb, Hc. cbn.
        unfold store_after. rewrite Ho. auto.
    + unfold action, bind, deref. rewrite Ho. auto.
  - auto.
  - destruct (run_task_keeps w h r) as (Hh & Hs & Hv). cbn zeta in *.
    rewrite Hh, Hs, Hv. auto.
Qed.

Lemma heap_after_lookup (inp : Input) (hp : list instance) (l : loc) :
  heap_after inp hp !! l = Nat.iter (presses l [inp]) activated <$> hp !! l.
Proof.
  destruct inp as [i|i values|i [l'|]|h r]; cbn [heap_after presses];
    unfold loc in *; try (cbn; destruct (hp !! l); reflexivity).
  case_bool_decide as Hl.
  - subst l'. destruct (hp !! l) as [o|] eqn:Ho; cbv beta iota.
    + rewrite list_lookup_insert_eq by (eapply lookup_lt_Some; eauto).
      reflexivity.
    + rewrite Ho. reflexivity.
  - destruct (hp !! l') as [o|] eqn:Ho; cbv beta iota.
    + rewrite list_lookup_insert_ne by congruence.
      destruct (hp !! l); reflexivity.
    + destruct (hp !! l); reflexivity.
Qed.

Lemma presses_cons (l : loc) (inp : Input) (inps : list Input) :
  presses l (inp :: inps) = presses l [inp] + presses l inps.
Proof.
  destruct inp as [i|i values|i [l'|]|h r]; cbn [presses]; try reflexivity.
  case_bool_decide; reflexivity.
Qed.

(** Over a run, an object is activated as often as its control is
    pressed, and nothing else touches it. *)
Lemma run_heap_lookup (inps : list Input) (w : World) (l : loc) :
  heap (run inps w) !! l = Nat.iter (presses l inps) activated <$> heap w !! l.
Proof.
  revert w. induction inps as [|inp inps IH]; intros w.
  - cbn. destruct (heap w !! l); reflexivity.
  - cbn [run]. rewrite IH, presses_cons.
    destruct (handle_keeps w inp) as (Hh & _).
    cbn zeta in Hh. rewrite Hh, heap_after_lookup.
    destruct (heap w !! l) as [o|]; [|reflexivity].
    cbn [fmap option_fmap option_map]. f_equal.
    rewrite Nat.add_comm. symmetry. apply Nat.iter_add.
Qed.

Lemma iter_activated_clicker (n : nat) (c : Z) :
  Nat.iter n activated (IClicker c) = IClicker (c + Z.of_nat n).
Proof.
  induction n as [|n IH].
  - unfold Nat.iter. cbn [nat_rect]. f_equal. lia.
  - rewrite Nat.iter_succ, IH. cbn [activated]. f_equal. lia.
Qed.

Lemma iter_activated_toggle (n : nat) (s : bool) :
  Nat.iter n activated (IToggle s) = IToggle (if Nat.even n then s else negb s).
Proof.
  induction n as [|n IH]; [reflexivity|].
  rewrite Nat.iter_succ, IH. cbn [activated]. f_equal.
  rewrite Nat.even_succ, <- Nat.negb_even.
  destruct (Nat.even n), s; reflexivity.
Qed.

Lemma iter_activated_fixtweet (n : nat) (s : bool) (ch : TextChannel) :
  Nat.iter n activated (IFixTweet s ch)
  = IFixTweet (if Nat.even n then s else negb s) ch.
Proof.
  induction n as [|n IH]; [reflexivity|].
  rewrite Nat.iter_succ, IH. cbn [activated]. f_equal.
  rewrite Nat.even_succ, <- Nat.negb_even.
  destruct (Nat.even n), s; reflexivity.
Qed.

(** X9. Over any sequence of refreshes, selections, presses and task
    runs, the counter of a clicker grows by the number of presses of its
    own control, and by nothing else. *)
Theorem clicker_counts_its_clicks :
  forall (inps : list Input) (w : World) (l : loc) (c : Z),
    heap w !! l = Some (IClicker c) ->
    heap (run inps w) !! l = Some (IClicker (c + Z.of_nat (presses l inps))).
Proof.
  intros inps w l c Ho. rewrite run_heap_lookup, Ho. cbn.
  now rewrite iter_activated_clicker.
Qed.

(** X10. Over any such sequence the flag of a toggle, and of a
    FixTweet setting, is its initial value after an even number of
    presses of its own control and the negated value after an odd
    number. *)
Theorem flag_is_the_parity_of_its_presses :
  forall (inps : list Input) (w : World) (l : loc) (s : bool),
    (heap w !! l = Some (IToggle s) ->
     heap (run inps w) !! l
     = Some (IToggle (if Nat.even (presses l inps) then s else negb s)))
    /\ (forall ch, heap w !! l = Some (IFixTweet s ch) ->
        heap (run inps w) !! l
        = Some (IFixTweet (if Nat.even (presses l inps) then s else negb s) ch)).
Proof.
  intros inps w l s. split.
  - intros Ho. rewrite run_heap_lookup, Ho. cbn.
    now rewrite iter_activated_toggle.
  - intros ch Ho. rewrite run_heap_lookup, Ho. cbn.
    now rewrite iter_activated_fixtweet.
Qed.

Lemma type_of_iter_activated (n : nat) (o : instance) :
  type_of (Nat.iter n activated o) = type_of o.
Proof.
  induction n as [|n IH]; [reflexivity|]. rewrite Nat.iter_succ.
  rewrite <- IH. now destruct (Nat.iter n activated o).
Qed.

Lemma heap_after_length (inp : Input) (hp : list instance) :
  length (heap_after inp hp) = length hp.
Proof.
  destruct inp as [i|i values|i [l'|]|h r]; cbn [heap_after]; try reflexivity.
  destruct (hp !! l'); [apply length_insert|reflexivity].
Qed.

(** X16. No input adds, removes or replaces a setting: after any
    sequence of inputs the settings mapping, the bot and the channel of
    the view are what they were, the heap holds as many objects, and each
    object is of the class it was. *)
Theorem settings_are_fixed_at_construction :
  forall (inps : list Input) (w : World),
    settings (view (run inps w)) = settings (view w)
    /\ bot (view (run inps w)) = bot (view w)
    /\ channel (view (run inps w)) = channel (view w)
    /\ length (heap (run inps w)) = length (heap w)
    /\ forall l : loc,
         type_of <$> heap (run inps w) !! l = type_of <$> heap w !! l.
Proof.
  intros inps w. split; [|split; [|split; [|split]]].
  1-4: revert w; induction inps as [|inp inps IH]; intros w; cbn [run];
       [reflexivity|]; rewrite IH;
       destruct (handle_keeps w inp) as (Hh & _ & Hd & Hb & Hc); cbn zeta in *;
       try assumption.
  - rewrite Hh. apply heap_after_length.
  - intros l. rewrite run_heap_lookup. unfold loc in *.
    destruct (heap w !! l) as [o|]; cbn; [|reflexivity].
    now rewrite type_of_iter_activated.
Qed.
Lemma wf_settings_distinct_locs (w : World) (k k' : string) (l : loc) :
  wf_settings w = true ->
  dict_get k (settings (view w)) = Some l ->
  dict_get k' (settings (view w)) = Some l -> k = k'.
Proof.
  intros Hset Hk Hk'.
  destruct (wf_settings_entry w k l Hset (dict_get_elem _ _ _ Hk)) as (o & Ho & Hid).
  destruct (wf_settings_entry w k' l Hset (dict_get_elem _ _ _ Hk')) as (o' & Ho' & Hid').
  congruence.
Qed.

(** X12. In a mapping with distinct keys over live settings, two keys
    never share an object, so activating the setting stored under one key
    leaves the setting stored under any other key as it was. *)
Theorem activation_leaves_the_other_settings_alone :
  forall (w : World) (i : Interaction) (k k' : string) (l l' : loc),
    wf_settings w = true ->
    dict_get k (settings (view w)) = Some l ->
    dict_get k' (settings (view w)) = Some l' ->
    k' <> k ->
    let w' := snd (action l i w) in
    l' <> l
    /\ dict_get k' (settings (view w')) = Some l'
    /\ heap w' !! l' = heap w !! l'.
Proof.
  intros w i k k' l l' Hset Hk Hk' Hne w'. subst w'.
  assert (Hl : l' <> l).
  { intros ->. apply Hne. eapply wf_settings_distinct_locs; eauto. }
  destruct (handle_keeps w (Press i (cb_action l))) as (Hh & _ & Hd & _).
  cbn zeta in Hh, Hd. cbn [handle] in Hh, Hd.
  split; [exact Hl|]. split; [now rewrite Hd|].
  rewrite Hh, heap_after_lookup. cbn [presses].
  rewrite bool_decide_eq_false_2 by congruence.
  unfold loc in *. destruct (heap w !! l'); reflexivity.
Qed.

(** X8. The response sent by an activation shows the state after the
    activation: the items and the embed of the view are those the selected
    setting builds once it has been updated. *)
Theorem activation_is_shown_in_the_response :
  forall (w : World) (i : Interaction) (k : string) (l : loc) (o : instance),
    wf w = true -> selected_id (view w) = Some k ->
    dict_get k (settings (view w)) = Some l -> heap w !! l = Some o ->
    let w' := snd (action l i w) in
    exists items options e,
      build_action l (activated o) w = (Return items, w)
      /\ build_embed (activated o) (bot (view w)) w = (Return e, w)
      /\ children (view w')
         = items ++ [ItemSelect options (Some cb_select_parameter)]
      /\ embed (view w') = Some e
      /\ response_event i (view w') ∈ since w w'.
Proof.
  intros w i k l o Hwf Hsel Hk Ho w'. subst w'.
  pose proof Hwf as Hwf'. apply andb_true_iff in Hwf' as [Hset _].
  destruct (wf_settings_entry w k l Hset (dict_get_elem _ _ _ Hk)) as (o0 & Ho0 & Hid).
  assert (o0 = o) as -> by congruence.
  assert (Hty : type_of o <> BaseSetting).
  { intros E. rewrite E in Hid. discriminate Hid. }
  rewrite (action_unfold w l o i Ho Hty).
  set (w1 := {| heap := <[l:=activated o]> (heap w); view := view w;
                tasks := tasks w;
                store := store_after (Press i (cb_action l)) (heap w) (store w);
                log := log w |}).
  assert (Hwf1 : wf w1 = true).
  { rewrite <- Hwf. etransitivity;
      [|apply (assign_wf w l o (activated o) Ho); now destruct o].
    apply wf_ext; reflexivity. }
  destruct (refresh_spec w1 i Hwf1) as (items & options & e & [Hi _] & He & Er).
  cbn zeta in Er. rewrite Er. clear Er.
  unfold embed_for in He. cbn [w1 view heap] in Hi, He. rewrite Hsel in Hi, He.
  destruct Hi as (l1 & o1 & Hl1 & Ho1 & _ & Hact).
  destruct He as (l2 & o2 & Hl2 & Ho2 & Hemb).
  assert (l1 = l) as -> by congruence. assert (l2 = l) as -> by congruence.
  assert (Hlt : l < length (heap w)) by (eapply lookup_lt_Some; eauto).
  rewrite list_lookup_insert_eq in Ho1, Ho2 by exact Hlt.
  injection Ho1 as <-. injection Ho2 as <-.
  exists items, options, e.
  split; [apply Hact|]. split; [apply Hemb|].
  unfold since, response_event.
  destruct (response_error i) as [x|]; cbn [snd log view w1];
    rewrite <- ?app_assoc, drop_app_length;
    (split; [reflexivity|]); (split; [reflexivity|]);
    destruct (message i); cbn; rewrite !elem_of_cons; auto.
Qed.

(** X11. Provided the durable store gives back the flag last written
    for a channel: throughout a session of a freshly constructed panel the
    flag of its FixTweet setting is the one the store holds for the
    channel, and a panel constructed later on the same channel starts from
    that flag. *)
Theorem fixtweet_flag_agrees_with_the_store :
  store_reads_back ->
  forall (i : Interaction) (ch : TextChannel) (w0 : World) (inps : list Input),
    heap w0 = [] ->
    let c0 := interaction_channel i in
    let w := run inps (snd (SettingsView__init__ i ch w0)) in
    exists s,
      heap w = [IFixTweet s c0]
      /\ s = is_fixtweet_enabled (guild_id c0) (channel_id c0) (store w)
      /\ forall (i' : Interaction) (ch' : TextChannel),
           interaction_channel i' = c0 ->
           heap (snd (SettingsView__init__ i' ch' w)) = [IFixTweet s c0; IFixTweet s c0].
Proof.
  intros Hlaw i ch w0 inps Hh0 c0 w.
  assert (Hinv : exists s, heap w = [IFixTweet s c0]
                 /\ s = is_fixtweet_enabled (guild_id c0) (channel_id c0) (store w)).
  { subst w. rewrite init_spec. cbn [snd].
    match goal with |- context [run inps ?x] => set (w1 := x) end.
    assert (Hinv1 : exists s, heap w1 = [IFixTweet s c0]
               /\ s = is_fixtweet_enabled (guild_id c0) (channel_id c0) (store w1)).
    { eexists. cbn [w1 heap store]. rewrite Hh0. split; reflexivity. }
    clearbody w1. revert w1 Hinv1.
    induction inps as [|inp inps IH]; intros w1 Hinv1; cbn [run]; [exact Hinv1|].
    apply IH. destruct Hinv1 as (s & Hh & Hs).
    destruct (handle_keeps w1 inp) as (Hh' & Hs' & _). cbn zeta in Hh', Hs'.
    rewrite Hh', Hs', Hh.
    destruct inp as [i1|i1 values|i1 [l|]|h r]; cbn [heap_after store_after];
      try (exists s; split; [reflexivity|exact Hs]).
    destruct l as [|l]; cbn.
    - exists (negb s). split; [reflexivity|]. symmetry. apply Hlaw.
    - exists s. split; [reflexivity|exact Hs]. }
  destruct Hinv as (s & Hh & Hs). exists s. split; [exact Hh|]. split; [exact Hs|].
  intros i' ch' Hc. rewrite init_spec. cbn [snd heap]. rewrite Hh, Hc, <- Hs.
  reflexivity.
Qed.
End ActivationMore.

(** ** The life of a clean-up task *)

Section TasksMore.
Context `{Env}.

(** What running a task does, by the state it is in. *)
Lemma run_task_cases (w : World) (h : nat) (r : option exn) (tk : Task) :
  tasks w !! h = Some tk ->
  run_task h r w
  = match task_state tk with
    | Finished => (Return tt, w)
    | Cancelling =>
        (Return tt,
         set_tasks (fun ts => <[h := set_task_state Finished tk]> ts) w)
    | Scheduled =>
        (match r with
         | Some x => if caught_by [HTTPException; CancelledError] x
                     then Return tt else Raise x
         | None => Return tt
         end,
         {| heap := heap w; view := view w;
            tasks := <[h := set_task_state Finished tk]> (tasks w);
            store := store w;
            log := log w ++ [DeleteOriginalResponse (task_interaction tk)] |})
    end.
Proof.
  intros Htk. unfold run_task, _message_delete_after_task. step. rewrite Htk.
  destruct (task_state tk); [| |reflexivity].
  - destruct r as [x|];
      [destruct (caught_by [HTTPException; CancelledError] x) eqn:E|];
      unfold _message_delete_after, try_except, bind, emit, modify, raise_if,
        ret, raise; cbv beta iota; rewrite ?E; reflexivity.
  - reflexivity.
Qed.

Lemma since_same (w w' : World) : log w' = log w -> since w w' = [].
Proof. intros E. unfold since. rewrite E. apply drop_all. Qed.

(** X14. Running a task finishes it, whatever the deletion answers;
    it attempts the deletion once if its countdown was pending and not at
    all if it had been cancelled or was finished; running it again does
    nothing.  After [cancel] was called on a task, running it never
    attempts the deletion. *)
Theorem task_attempts_the_deletion_at_most_once :
  (forall (w : World) (h : nat) (r : option exn) (tk : Task),
     tasks w !! h = Some tk ->
     let w' := snd (run_task h r w) in
     (exists tk', tasks w' !! h = Some tk' /\ task_state tk' = Finished
                  /\ task_interaction tk' = task_interaction tk)
     /\ since w w'
        = match task_state tk with
          | Scheduled => [DeleteOriginalResponse (task_interaction tk)]
          | _ => []
          end
     /\ forall r', run_task h r' w' = (Return tt, w'))
  /\ (forall (w : World) (h : nat) (r : option exn),
        let w1 := snd (cancel h w) in
        since w1 (snd (run_task h r w1)) = []).
Proof.
  split.
  - intros w h r tk Htk w'. subst w'.
    assert (Hlt : h < length (tasks w)) by (eapply lookup_lt_Some; eauto).
    rewrite (run_task_cases w h r tk Htk).
    destruct (task_state tk) eqn:Es; cbn [snd tasks set_tasks].
    + split; [|split].
      * eexists. split; [now apply list_lookup_insert_eq|]. split; reflexivity.
      * unfold since. cbn [log]. now rewrite drop_app_length.
      * intros r'. erewrite run_task_cases
          by (cbn [tasks]; now apply list_lookup_insert_eq).
        reflexivity.
    + split; [|split].
      * eexists. split; [now apply list_lookup_insert_eq|]. split; reflexivity.
      * now apply since_same.
      * intros r'. erewrite run_task_cases
          by (cbn [tasks]; now apply list_lookup_insert_eq).
        reflexivity.
    + split; [|split].
      * exists tk. auto.
      * now apply since_same.
      * intros r'. rewrite (run_task_cases w h r' tk Htk), Es. reflexivity.
  - intros w h r w1. subst w1.
    unfold cancel. cbn [snd bind emit modify].
    match goal with |- since ?x _ = _ => set (w1 := x) end.
    destruct (tasks w1 !! h) as [tk|] eqn:Htk.
    + rewrite (run_task_cases w1 h r tk Htk).
      destruct (task_state tk) eqn:Es; try (now apply since_same).
      exfalso. cbn [w1 tasks set_tasks] in Htk. unfold request_cancel in Htk.
      destruct (tasks w !! h) as [tk0|] eqn:Htk0.
      * destruct (task_state tk0) eqn:Es0.
        -- rewrite list_lookup_insert_eq in Htk by (eapply lookup_lt_Some; eauto).
           injection Htk as <-. discriminate Es.
        -- congruence.
        -- congruence.
      * congruence.
    + unfold run_task, _message_delete_after_task. step. rewrite Htk.
      now apply since_same.
Qed.

(** X13. At any point of a session, a task that attempts the deletion
    is the one whose handle the view holds, and it deletes the response of
    the interaction it was created for: a countdown superseded by a later
    refresh never deletes the panel. *)
Theorem only_the_current_countdown_deletes :
  forall (pre : list Input) (w : World) (h : nat) (r : option exn)
         (i : Interaction),
    single_flight w ->
    let w1 := run pre w in
    DeleteOriginalResponse i ∈ since w1 (snd (run_task h r w1)) ->
    timeout_task (view w1) = Some h
    /\ exists tk, tasks w1 !! h = Some tk /\ task_interaction tk = i.
Proof.
  intros pre w h r i Hsf w1 Hin.
  assert (Hsf1 : single_flight w1) by (apply run_single_flight, Hsf).
  clearbody w1.
  destruct (tasks w1 !! h) as [tk|] eqn:Htk.
  - rewrite (run_task_cases w1 h r tk Htk) in Hin.
    destruct (task_state tk) eqn:Es; cbn [snd] in Hin;
      try (rewrite since_same in Hin by reflexivity; inversion Hin).
    unfold since in Hin. cbn [log] in Hin. rewrite drop_app_length in Hin.
    apply list_elem_of_singleton in Hin. injection Hin as ->.
    split; [now apply (Hsf1 h tk)|]. exists tk. auto.
  - unfold run_task, _message_delete_after_task in Hin.
    erewrite bind_eq in Hin by reflexivity.
    rewrite Htk in Hin. cbn [snd ret] in Hin.
    rewrite since_same in Hin by reflexivity.
    inversion Hin.
Qed.

Lemma filter_length_pos {A} (P : A -> bool) (l : list A) (n : nat) (x : A) :
  l !! n = Some x -> P x = true -> 1 <= length (List.filter P l).
Proof.
  intros Hn Px. assert (Hin : In x (List.filter P l)).
  { apply filter_In. split; [|exact Px].
    apply list_elem_of_In, list_elem_of_lookup. eauto. }
  destruct (List.filter P l); [inversion Hin|cbn; lia].
Qed.

(** X15. A [refresh] that runs to its end leaves exactly one countdown
    pending: the task it has just created, for the interaction it was
    called with. *)
Theorem successful_refresh_leaves_exactly_one_countdown :
  forall (w : World) (i : Interaction),
    single_flight w -> fst (refresh i w) = Return tt ->
    let w' := snd (refresh i w) in
    pending w' = 1
    /\ forall h tk, tasks w' !! h = Some tk -> task_state tk = Scheduled ->
         h = length (tasks w) /\ task_interaction tk = i.
Proof.
  intros w i Hsf Hret w'.
  assert (Hsf' : single_flight w') by (apply refresh_single_flight, Hsf).
  assert (Hnew : timeout_task (view w') = Some (length (tasks w))
                 /\ tasks w' !! length (tasks w)
                    = Some {| task_interaction := i; task_state := Scheduled |}).
  { subst w'. destruct (refresh_cases w i) as (c & e & Hc). cbn zeta in Hc.
    destruct Hc as [[x Er]|[[x Er]| Er]]; rewrite Er in Hret |- *;
      [discriminate Hret|discriminate Hret|].
    cbn [snd view tasks timeout_task with_timeout_task]. split; [reflexivity|].
    unfold rescheduled.
    destruct (timeout_task (view w));
      rewrite lookup_app_r by (rewrite ?length_request_cancel; lia);
      rewrite ?length_request_cancel, Nat.sub_diag; reflexivity. }
  destruct Hnew as [Hh Hl]. clearbody w'. split.
  - apply Nat.le_antisymm; [now apply single_flight_pending|].
    unfold pending. eapply filter_length_pos; [exact Hl|reflexivity].
  - intros h tk Htk Hs. pose proof (Hsf' h tk Htk Hs) as E.
    rewrite Hh in E. injection E as <-. rewrite Hl in Htk. injection Htk as <-.
    auto.
Qed.
End TasksMore.

(** ** Sessions *)

Section SessionMore.
Context `{Env}.

(** X18. In a session (a view constructed by [SettingsView.__init__],
    then inputs whose selections are values the menu offers) the world
    stays well formed, so a rebuild never raises, and a [refresh] raises
    only what the response call raises. *)
Theorem session_never_fails_to_build :
  forall (i : Interaction) (ch : TextChannel) (w0 : World) (inps : list Input),
    all_offered inps (snd (SettingsView__init__ i ch w0)) = true ->
    let w := run inps (snd (SettingsView__init__ i ch w0)) in
    wf w = true /\ fst (build w) = Return tt
    /\ forall i', fst (refresh i' w)
                  = match response_error i' with
                    | Some x => Raise x
                    | None => Return tt
                    end.
Proof.
  intros i ch w0 inps Hall w.
  assert (Hwf : wf w = true) by (apply session_wf, Hall).
  clearbody w. split; [exact Hwf|]. split.
  - destruct (build_spec w Hwf) as (items & options & e & Eb & _).
    now rewrite Eb.
  - intros i'.
    destruct (refresh_spec w i' Hwf) as (items & options & e & _ & _ & Er).
    cbn zeta in Er. rewrite Er.
    destruct (response_error i'); reflexivity.
Qed.
End SessionMore.

(** ** The further properties on the demo panel *)

Section MoreWitnesses.
Import Demo.
#[local] Existing Instance demo_env.

(** A clicker class followed by the FixTweet class: the clicker is
    created, then the call raises [TypeError]. *)
Lemma dict_from_settings_raises_witness :
  exists msg,
    dict_from_settings [ArgClass ClickerSetting; ArgClass FixTweetSetting] blank
    = (Raise (Exn TypeError msg),
       set_heap (fun h => h ++ omap created [ArgClass ClickerSetting]) blank).
Proof.
  apply (dict_from_settings_raises_at_first_bad_element (H := demo_env)
           [ArgClass ClickerSetting] [] (ArgClass FixTweetSetting) TypeError blank).
  - repeat constructor.
  - reflexivity.
  - discriminate.
Defined.

Lemma dict_from_settings_creates_witness :
  exists d,
    dict_from_settings
      [ArgClass ClickerSetting; ArgClass ToggleSetting; ArgInstance 0] fresh
    = (Return d,
       set_heap (fun h => h ++ omap created
                   [ArgClass ClickerSetting; ArgClass ToggleSetting;
                    ArgInstance 0]) fresh).
Proof.
  apply (dict_from_settings_creates_default_instances (H := demo_env)).
  repeat constructor.
Defined.

Lemma first_send_witness :
  log (snd (send command (snd (SettingsView__init__ command general blank))))
  = [CallRefresh command;
     SendMessage command
       [ItemSelect [{| opt_label := "settings.fixtweet.name";
                       value := "fixtweet";
                       opt_description := "settings.fixtweet.description";
                       opt_emoji := Some "🔧";
                       opt_default := false |}] (Some cb_select_parameter)]
       (Some {| title := "settings.title"; description := "settings.description";
                footer := Some "FixMediaBot" |}) true;
     CreateTask 0].
Proof.
  rewrite (first_send_shows_the_overview (H := demo_env) command general blank
             command eq_refl eq_refl).
  reflexivity.
Defined.

Lemma select_unknown_witness :
  fst (select_parameter click ["volume"] fresh) = Raise (Exn KeyError "volume")
  /\ selected_id (view (snd (select_parameter click ["volume"] fresh)))
     = Some "volume".
Proof.
  destruct (select_parameter_unknown_id_raises_KeyError (H := demo_env)
              fresh click "volume" []) as [E _].
  - cbn. intros Hin. apply list_elem_of_singleton in Hin. discriminate Hin.
  - rewrite E. split; reflexivity.
Defined.

Lemma build_forgets_witness :
  wf chosen = true
  /\ build (set_view (fun v => with_embed None (with_children [] v)) chosen)
     = build chosen
  /\ build (snd (build chosen)) = build chosen.
Proof.
  split; [reflexivity|].
  apply (build_forgets_previous_render (H := demo_env) chosen [] None).
  reflexivity.
Defined.

Lemma build_items_shape_witness :
  wf chosen = true
  /\ exists l b options,
       dict_get "fixtweet" (settings (view chosen)) = Some l
       /\ custom_id b = "fixtweet"
       /\ children (view (snd (build chosen)))
          = [ItemButton b (Some (cb_action l));
             ItemSelect options (Some cb_select_parameter)].
Proof.
  split; [reflexivity|].
  apply (build_leaves_at_most_one_button_and_one_menu (H := demo_env) chosen).
  reflexivity.
Defined.

Lemma build_footer_witness :
  wf chosen = true
  /\ exists e0, footer e0 = None
       /\ embed (view (snd (build chosen)))
          = Some (set_embed_footer (bot (view chosen)) e0).
Proof.
  split; [reflexivity|].
  apply (build_embed_always_gets_the_footer (H := demo_env) chosen).
  reflexivity.
Defined.

Lemma clicker_counts_witness :
  heap (run [Press click (cb_action 1); Select click ["toggle"];
             Press click (cb_action 2); Press click (cb_action 1)] three) !! 1
  = Some (IClicker 2).
Proof.
  apply (clicker_counts_its_clicks (H := demo_env)
           [Press click (cb_action 1); Select click ["toggle"];
            Press click (cb_action 2); Press click (cb_action 1)] three 1 0).
  reflexivity.
Defined.

Lemma flag_parity_witness :
  heap (run [Press click (cb_action 2); Press click (cb_action 1);
             Press click (cb_action 2); Press click (cb_action 2)] three) !! 2
  = Some (IToggle true).
Proof.
  apply (proj1 (flag_is_the_parity_of_its_presses (H := demo_env)
                  [Press click (cb_action 2); Press click (cb_action 1);
                   Press click (cb_action 2); Press click (cb_action 2)]
                  three 2 false)).
  reflexivity.
Defined.

Lemma other_settings_witness :
  wf_settings three = true
  /\ 2 <> 1
  /\ dict_get "toggle" (settings (view (snd (action 1 click three)))) = Some 2
  /\ heap (snd (action 1 click three)) !! 2 = heap three !! 2.
Proof.
  split; [vm_compute; reflexivity|].
  apply (activation_leaves_the_other_settings_alone (H := demo_env)
           three click "clicker" "toggle" 1 2).
  - vm_compute. reflexivity.
  - reflexivity.
  - reflexivity.
  - discriminate.
Defined.

Lemma activation_shown_witness :
  wf clicking = true
  /\ exists items options e,
       build_action 1 (activated (IClicker 0)) clicking = (Return items, clicking)
       /\ build_embed (activated (IClicker 0)) (bot (view clicking)) clicking
          = (Return e, clicking)
       /\ children (view (snd (action 1 click clicking)))
          = items ++ [ItemSelect options (Some cb_select_parameter)]
       /\ embed (view (snd (action 1 click clicking))) = Some e
       /\ response_event click (view (snd (action 1 click clicking)))
          ∈ since clicking (snd (action 1 click clicking)).
Proof.
  split; [vm_compute; reflexivity|].
  apply (activation_is_shown_in_the_response (H := demo_env)
           clicking click "clicker" 1 (IClicker 0)).
  - vm_compute. reflexivity.
  - reflexivity.
  - reflexivity.
  - reflexivity.
Defined.

(** The demo store gives back what was written. *)
Lemma fixtweet_store_witness :
  store_reads_back (H := demo_env)
  /\ exists s,
       heap (run [Send command; Select click ["fixtweet"];
                  Press click (cb_action 0)]
               (snd (SettingsView__init__ command general blank)))
       = [IFixTweet s general]
       /\ s = is_fixtweet_enabled 7 42
                (store (run [Send command; Select click ["fixtweet"];
                             Press click (cb_action 0)]
                          (snd (SettingsView__init__ command general blank)))).
Proof.
  assert (Hlaw : store_reads_back (H := demo_env)).
  { intros g c b st. cbn. now rewrite lookup_insert_eq. }
  split; [exact Hlaw|].
  destruct (fixtweet_flag_agrees_with_the_store (H := demo_env) Hlaw
              command general blank
              [Send command; Select click ["fixtweet"]; Press click (cb_action 0)]
              eq_refl) as (s & Hh & Hs & _).
  exists s. split; [exact Hh|exact Hs].
Defined.

Lemma task_lifecycle_witness :
  tasks chosen !! 1
    = Some {| task_interaction := click; task_state := Scheduled |}
  /\ since chosen (snd (run_task 1 None chosen))
     = [DeleteOriginalResponse click]
  /\ since (snd (cancel 1 chosen)) (snd (run_task 1 None (snd (cancel 1 chosen))))
     = [].
Proof.
  destruct (task_attempts_the_deletion_at_most_once (H := demo_env)) as [P1 P2].
  split; [reflexivity|]. split.
  - destruct (P1 chosen 1 None
                {| task_interaction := click; task_state := Scheduled |} eq_refl)
      as (_ & E & _).
    exact E.
  - apply P2.
Defined.

Lemma current_countdown_witness :
  DeleteOriginalResponse command
    ∈ since (run [Send command] fresh)
        (snd (run_task 0 None (run [Send command] fresh)))
  /\ timeout_task (view (run [Send command] fresh)) = Some 0.
Proof.
  assert (Hin : DeleteOriginalResponse command
                  ∈ since (run [Send command] fresh)
                      (snd (run_task 0 None (run [Send command] fresh)))).
  { vm_compute. left. }
  split; [exact Hin|].
  apply (only_the_current_countdown_deletes (H := demo_env)
           [Send command] fresh 0 None command).
  - intros h tk Hl. cbn in Hl. discriminate Hl.
  - exact Hin.
Defined.

Lemma one_countdown_witness :
  fst (refresh command fresh) = Return tt
  /\ pending (snd (refresh command fresh)) = 1.
Proof.
  split; [reflexivity|].
  apply (successful_refresh_leaves_exactly_one_countdown (H := demo_env)
           fresh command).
  - intros h tk Hl. cbn in Hl. discriminate Hl.
  - reflexivity.
Defined.

Lemma session_builds_witness :
  wf (run [Send command; Select click ["fixtweet"]; Press click (cb_action 0)]
        (snd (SettingsView__init__ command general blank))) = true
  /\ fst (build (run [Send command; Select click ["fixtweet"];
                      Press click (cb_action 0)]
                   (snd (SettingsView__init__ command general blank))))
     = Return tt.
Proof.
  destruct (session_never_fails_to_build (H := demo_env) command general blank
              [Send command; Select click ["fixtweet"]; Press click (cb_action 0)])
    as (A & B & _).
  - vm_compute. reflexivity.
  - split; [exact A|exact B].
Defined.
End MoreWitnesses.

(** ** What the clean-up task catches, and what it lets out *)

Section CleanupClaim.
Context `{Env}.

End CleanupClaim.

(** ** What an activation changes *)

Section ActivationClaim.
Context `{Env}.

(** C3, as the code has it.  Activating a setting (an object of one of
    the three classes that define [action]) is the update of that object
    followed by one [refresh]: the object becomes [activated o], every
    other object is as before and none is created; [refresh] is called
    exactly once; the settings, the selection, the bot and the channel
    of the view are untouched.  The state of the setting is not all that
    changes: [FixTweetSetting.action] also writes the new flag to the
    durable store, under the id of its channel; the other two classes
    leave the store alone. *)
Theorem activation_updates_its_setting_the_store_and_refreshes_once :
  forall (w : World) (l : loc) (o : instance) (i : Interaction),
    heap w !! l = Some o -> type_of o <> BaseSetting ->
    let st' := match o with
               | IFixTweet state channel =>
                   TextChannel_update_fix_twitter (channel_id channel)
                     (negb state) (store w)
               | _ => store w
               end in
    let w' := snd (action l i w) in
    action l i w
    = refresh i {| heap := <[l := activated o]> (heap w); view := view w;
                   tasks := tasks w; store := st'; log := log w |}
    /\ heap w' !! l = Some (activated o)
    /\ (forall l', l' <> l -> heap w' !! l' = heap w !! l')
    /\ length (heap w') = length (heap w)
    /\ store w' = st'
    /\ length (List.filter is_refresh_call (since w w')) = 1
    /\ settings (view w') = settings (view w)
    /\ selected_id (view w') = selected_id (view w)
    /\ selected (view w') = selected (view w)
    /\ bot (view w') = bot (view w)
    /\ channel (view w') = channel (view w).
Proof.
  intros w l o i Ho Hty st' w'.
  assert (Eu := action_unfold w l o i Ho Hty).
  assert (Est : store_after (Press i (cb_action l)) (heap w) (store w) = st').
  { unfold store_after. rewrite Ho. subst st'. destruct o; reflexivity. }
  rewrite Est in Eu.
  set (w1 := {| heap := <[l := activated o]> (heap w); view := view w;
                tasks := tasks w; store := st'; log := log w |}) in *.
  assert (Hl : l < length (heap w)) by (eapply lookup_lt_Some; exact Ho).
  split; [exact Eu|].
  subst w'. rewrite Eu.
  destruct (refresh_frame w1 i) as (Hh & Hs & _ & _ & evs & Hlog & Hf).
  destruct (refresh_keeps w1 i) as (_ & _ & Hset & Hsel & Hbot & Hch).
  cbn zeta in *. rewrite Hh, Hs.
  split. { cbn. now apply list_lookup_insert_eq. }
  split. { intros l' Hne. cbn. apply list_lookup_insert_ne. congruence. }
  split. { cbn. apply length_insert. }
  split; [reflexivity|].
  split. { unfold since. rewrite Hlog. cbn [log w1].
           rewrite drop_app_length. cbn. rewrite Hf. reflexivity. }
  split; [exact Hset|]. split; [exact Hsel|].
  split. { destruct (refresh_cases w1 i) as (c & e & Hc). cbn zeta in Hc.
           destruct Hc as [[x ->]|[[x ->]| ->]]; reflexivity. }
  split; [exact Hbot|exact Hch].
Qed.
End ActivationClaim.

Section ClaimWitnesses.
Import Demo.
#[local] Existing Instance demo_env.



(** Pressing the button of the fixtweet setting on the demo panel turns
    the flag of channel 42 on in the durable store: more than the state
    of the setting object has changed. *)
Lemma fixtweet_activation_writes_the_store :
  heap chosen !! 0 = Some (IFixTweet false general)
  /\ is_fixtweet_enabled 7 42 (store chosen) = false
  /\ is_fixtweet_enabled 7 42 (store (snd (action 0 click chosen))) = true
  /\ store (snd (action 0 click chosen)) <> store chosen.
Proof.
  split; [reflexivity|]. split; [reflexivity|]. split; [reflexivity|].
  intros E.
  assert (E' : is_fixtweet_enabled 7 42 (store (snd (action 0 click chosen)))
               = is_fixtweet_enabled 7 42 (store chosen)) by now rewrite E.
  discriminate E'.
Qed.

(** Clicking the clicker: its counter goes from 0 to 1, the store is as
    before, one refresh, the clicker still selected.  Pressing fixtweet:
    the flag of the object and the flag in the store are both set. *)
Lemma activation_witness :
  (heap clicking !! 1 = Some (IClicker 0)
   /\ heap (snd (action 1 click clicking)) !! 1 = Some (IClicker 1)
   /\ store (snd (action 1 click clicking)) = store clicking
   /\ length (List.filter is_refresh_call
                (since clicking (snd (action 1 click clicking)))) = 1
   /\ selected_id (view (snd (action 1 click clicking))) = Some "clicker")
  /\ (heap chosen !! 0 = Some (IFixTweet false general)
      /\ heap (snd (action 0 click chosen)) !! 0 = Some (IFixTweet true general)
      /\ store (snd (action 0 click chosen))
         = TextChannel_update_fix_twitter 42 true (store chosen)
      /\ length (List.filter is_refresh_call
                   (since chosen (snd (action 0 click chosen)))) = 1).
Proof.
  split.
  - split; [reflexivity|].
    destruct (activation_updates_its_setting_the_store_and_refreshes_once
                (H := demo_env) clicking 1 (IClicker 0) click eq_refl)
      as (_ & A & _ & _ & B & C & _ & D & _).
    + discriminate.
    + split; [exact A|]. split; [exact B|]. split; [exact C|].
      rewrite D. reflexivity.
  - split; [reflexivity|].
    destruct (activation_updates_its_setting_the_store_and_refreshes_once
                (H := demo_env) chosen 0 (IFixTweet false general) click eq_refl)
      as (_ & A & _ & _ & B & C & _).
    + discriminate.
    + split; [exact A|]. split; [exact B|exact C].
Defined.
End ClaimWitnesses.
